(** * Loki datasource: query preparation, batch execution, health check

    A shallow embedding of [LokiDatasource] (the Loki plugin's datasource
    class) and of the helpers it is built from.  JavaScript objects whose
    key order is observable (the parameter bags handed to
    [serializeParams]) are association lists in insertion order; the typed
    records of the plugin ([LokiQuery], responses, error objects) are Rocq
    records with [option] for optional fields.  Objects that are written
    to in place (the streams of a response, which [query] tags) live in a
    store and are referred to by location.  Promises are modelled by their
    settled outcome together with the network calls made while they were
    created.  Numbers are doubles: the ones computed with here are whole,
    and are held as integers together with the rounding of a product to
    the nearest double and the digits [String] prints. *)

From Stdlib Require Import List String Ascii Bool Arith ZArith QArith Qround Lia.
From Stdlib Require Import DecimalString Permutation Sorted OrderedTypeEx.
Import ListNotations.

Local Close Scope Q_scope.
Local Open Scope nat_scope.
Local Open Scope string_scope.
Local Open Scope list_scope.

(** ** Numbers *)

Local Open Scope Z_scope.

(** [a >= 0] rounded to the nearest multiple of [u], a tie going to the
    multiple with the even quotient. *)
Definition round_nearest_even (u a : Z) : Z :=
  let q := a / u in
  let r := a mod u in
  if 2 * r <? u then q * u
  else if u <? 2 * r then (q + 1) * u
  else if Z.even q then q * u else (q + 1) * u.

(** The distance between neighbouring doubles at [a >= 0]: a double has a
    significand of 53 bits, so whole numbers up to [2^53] are all doubles
    and from [2^(52+e)] on only the multiples of [2^e] are. *)
Definition ulp (a : Z) : Z := 2 ^ Z.max 0 (Z.log2 a - 52).

Definition double_of_nonneg (a : Z) : Z := round_nearest_even (ulp a) a.

(** The double nearest to the whole number [m] (round to nearest, ties to
    even), as a whole number.  Overflow to [Infinity] lies beyond [2^1023]
    and is out of reach of the products formed here. *)
Definition double_of_Z (m : Z) : Z := Z.sgn m * double_of_nonneg (Z.abs m).

(** [x * y] for two whole doubles: the exact product, rounded.  The
    result is whole again. *)
Definition double_mul (x y : Z) : Z := double_of_Z (x * y).

(** [Math.ceil]: the least whole number that is not below [x]. *)
Definition Math_ceil (x : Q) : Z := Qceiling x.

(** The digits [String] prints for a double: the decimal with the fewest
    significant digits that still rounds to that double, the closest one
    when there are two, then the one with the even last digit.  For the
    whole double [a >= 0], [decimal_at p a] is that choice among the
    multiples of [p], if one rounds to [a]. *)
Definition decimal_at (p a : Z) : option Z :=
  let lo := a / p * p in
  let hi := lo + p in
  match double_of_nonneg lo =? a, double_of_nonneg hi =? a with
  | true, true =>
      if a - lo <? hi - a then Some lo
      else if hi - a <? a - lo then Some hi
      else if Z.even (a / p) then Some lo else Some hi
  | true, false => Some lo
  | false, true => Some hi
  | false, false => None
  end.

(** Fewest significant digits first: multiples of [10^j] are tried before
    those of [10^(j-1)]. *)
Fixpoint shortest_from (j : nat) (a : Z) : Z :=
  match decimal_at (10 ^ Z.of_nat j) a with
  | Some c => c
  | None => match j with O => a | S j' => shortest_from j' a end
  end.

(** The whole number whose digits [String(x)] shows for a whole double
    [x] below [10^21] in absolute value (from there on [String] switches
    to exponent notation). *)
Definition shortest_decimal (x : Z) : Z := Z.sgn x * shortest_from 21 (Z.abs x).

Local Close Scope Z_scope.

(** ** JavaScript values and objects *)

(** A number [JNum n] is the whole double [n]. *)
Inductive JsVal : Type :=
| JUndefined
| JBool (b : bool)
| JNum (n : Z)
| JStr (s : string).

(** An object: its own enumerable properties in the order [Object.keys]
    lists them, which is the order of insertion for the keys used here
    (none is an array index). *)
Definition JsObject := list (string * JsVal).

Definition string_of_Z (n : Z) : string := NilZero.string_of_int (Z.to_int n).

(** [String(v)], the conversion applied by [encodeURIComponent] and by
    template literals (whole numbers print in decimal below 10^21, which
    covers the timestamps and limits sent here). *)
Definition js_toString (v : JsVal) : string :=
  match v with
  | JUndefined => "undefined"
  | JBool true => "true"
  | JBool false => "false"
  | JNum n => string_of_Z (shortest_decimal n)
  | JStr s => s
  end.

Definition truthy_string (s : string) : bool := negb (s =? "")%string.

Fixpoint obj_get (k : string) (o : JsObject) : JsVal :=
  match o with
  | [] => JUndefined
  | (k', v) :: rest => if (k' =? k)%string then v else obj_get k rest
  end.

(** Assignment of one property: an existing key keeps its position, a new
    key goes last. *)
Fixpoint obj_set (k : string) (v : JsVal) (o : JsObject) : JsObject :=
  match o with
  | [] => [(k, v)]
  | (k', v') :: rest =>
      if (k' =? k)%string then (k', v) :: rest else (k', v') :: obj_set k v rest
  end.

(** [{...o, ...src}] *)
Definition obj_spread (o src : JsObject) : JsObject :=
  fold_left (fun acc kv => obj_set (fst kv) (snd kv) acc) src o.

(** ** [encodeURIComponent] and [serializeParams] *)

Definition is_unreserved (c : ascii) : bool :=
  let n := nat_of_ascii c in
  (Nat.leb 65 n && Nat.leb n 90) || (Nat.leb 97 n && Nat.leb n 122)
  || (Nat.leb 48 n && Nat.leb n 57)
  || existsb (Nat.eqb n) [45; 95; 46; 33; 126; 42; 39; 40; 41]%nat.

Definition hex_digit (n : nat) : ascii :=
  if Nat.ltb n 10 then ascii_of_nat (48 + n) else ascii_of_nat (55 + n).

(** Strings are byte strings (UTF-8): every byte outside the unreserved
    set becomes [%XX]. *)
Fixpoint encodeURIComponent (s : string) : string :=
  match s with
  | EmptyString => EmptyString
  | String c rest =>
      if is_unreserved c then String c (encodeURIComponent rest)
      else
        let n := nat_of_ascii c in
        String "%" (String (hex_digit (n / 16)) (String (hex_digit (n mod 16))
          (encodeURIComponent rest)))
  end.

Definition serializeParams (data : JsObject) : string :=
  String.concat "&"
    (map (fun kv =>
            (encodeURIComponent (fst kv) ++ "="
               ++ encodeURIComponent (js_toString (snd kv)))%string)
         data).

Definition DEFAULT_MAX_LINES : Z := 1000.

Definition DEFAULT_QUERY_PARAMS : JsObject :=
  [ ("direction", JStr "BACKWARD");
    ("limit", JNum DEFAULT_MAX_LINES);
    ("regexp", JStr "");
    ("query", JStr "") ].

(** ** Character sets of serialized parameters *)

Fixpoint string_forall (p : ascii -> bool) (s : string) : bool :=
  match s with
  | EmptyString => true
  | String c rest => p c && string_forall p rest
  end.

Fixpoint count_char (c : ascii) (s : string) : nat :=
  match s with
  | EmptyString => 0
  | String d rest => (if Ascii.eqb d c then 1 else 0) + count_char c rest
  end.

(** The characters [encodeURIComponent] can produce. *)
Definition is_encoded_char (c : ascii) : bool :=
  is_unreserved c || Ascii.eqb c "%".

(** The characters [serializeParams] can produce. *)
Definition is_params_char (c : ascii) : bool :=
  is_encoded_char c || Ascii.eqb c "=" || Ascii.eqb c "&".

(** One [key=value] pair. *)
Definition param_pair (kv : string * JsVal) : string :=
  (encodeURIComponent (fst kv) ++ "=" ++ encodeURIComponent (js_toString (snd kv)))%string.

(** ** [String.prototype.replace] with a string pattern *)

Fixpoint string_drop (n : nat) (s : string) : string :=
  match n, s with
  | O, _ => s
  | S n', String _ rest => string_drop n' rest
  | S _, EmptyString => EmptyString
  end.

(** [s.replace(pat, rep)] for a string [pat] and a [rep] without [$]: the
    first occurrence is replaced, and only that one. *)
Fixpoint replace_first (pat rep s : string) : string :=
  if String.prefix pat s then (rep ++ string_drop (String.length pat) s)%string
  else
    match s with
    | EmptyString => EmptyString
    | String c rest => String c (replace_first pat rep rest)
    end.

(** [pat] occurs somewhere in [s]. *)
Fixpoint occurs (pat s : string) : bool :=
  String.prefix pat s
  || match s with
     | EmptyString => false
     | String _ rest => occurs pat rest
     end.

(** ** Types of the plugin *)

(** Modelled from the spec: the [LokiQuery] type of [./types] (section 3,
    Query Target): the expression, the optional display format, the hide
    flag and the identifier. *)
Record LokiQuery : Type := mkLokiQuery {
  refId : string;
  expr : string;
  format : option string;
  hide : option bool
}.

(** What [parseQuery] returns: the selector and the line filter. *)
Record ParsedQuery : Type := mkParsedQuery {
  pq_query : string;
  pq_regexp : string
}.

Definition parsed_obj (p : ParsedQuery) : JsObject :=
  [ ("query", JStr (pq_query p)); ("regexp", JStr (pq_regexp p)) ].

Record LogsStreamEntry : Type := mkEntry {
  ts : string;
  line : string
}.

(** A stream as the backend returns it, with the [search] property that
    [query] writes. *)
Record LogsStream : Type := mkStream {
  labels : list (string * string);
  entries : list LogsStreamEntry;
  search : JsVal
}.

Definition set_search (v : JsVal) (s : LogsStream) : LogsStream :=
  {| labels := labels s; entries := entries s; search := v |}.

(** Stream objects are shared by reference between a response and the
    list [query] builds, and [query] writes to them in place: they live in
    a store, and responses and lists hold their locations. *)
Definition Loc := nat.

Definition Store := Loc -> LogsStream.

Definition store_set (store : Store) (l : Loc) (s : LogsStream) : Store :=
  fun l' => if Nat.eqb l' l then s else store l'.

Record LogRowModel : Type := mkRow {
  row_timestamp : string;
  row_entry : string;
  row_labels : list (string * string);
  row_search : JsVal
}.

(** Modelled from the spec: a series of [app/core/logs_model] (section 3:
    bucketed line counts), as data points of (count, bucket time). *)
Record TimeSeries : Type := mkSeries {
  alias : string;
  datapoints : list (Z * Z)
}.

Record LogsModel : Type := mkLogs {
  rows : list LogRowModel;
  series : option (list TimeSeries)
}.

(** A moment is represented by its [valueOf()], the time value of a valid
    moment: a whole number of milliseconds since the epoch. *)
Definition Moment := Z.

Inductive DateInput : Type :=
| DateString (s : string)
| DateMoment (m : Moment).

Record TimeRange : Type := mkRange {
  from : DateInput;
  to : DateInput
}.

Record DataQueryOptions : Type := mkOptions {
  targets : list LokiQuery;
  range : TimeRange;
  intervalMs : Z;
  streaming : option bool
}.

(** An element of the [data] array of a response to the host: the array
    holds raw streams or derived series. *)
Inductive QueryDatum : Type :=
| StreamDatum (stream : Loc)
| SeriesDatum (t : TimeSeries).

Record DataQueryResponse : Type := mkResponse {
  data : list QueryDatum
}.

(** The body of a backend response: [streams] for [/api/prom/query],
    [values] for the label endpoints. *)
Record ResponseData : Type := mkResponseData {
  rd_streams : option (list Loc);
  rd_values : option (list string)
}.

Record HttpResponse : Type := mkHttpResponse {
  res_data : option ResponseData
}.

(** The [data] property of a rejection: a structured body with an
    optional [message], or a raw body. *)
Inductive ErrorBody : Type :=
| BodyObject (message : option string)
| BodyRaw (raw : string).

Record ErrorObj : Type := mkError {
  err_statusText : option string;
  err_status : option Z;
  err_data : option ErrorBody
}.

(** A [TypeError] instance has none of the properties read from a
    rejection. *)
Definition typeError : ErrorObj :=
  {| err_statusText := None; err_status := None; err_data := None |}.

Record TestResult : Type := mkTestResult {
  status : string;
  message : string
}.

Record Action : Type := mkAction {
  action_type : string;
  action_key : string;
  action_value : string
}.

(** What [backendSrv.get('api/datasources/<id>')] resolves to. *)
Record DatasourceInfo : Type := mkInfo {
  info_url : JsVal;
  basicAuthUser : JsVal;
  basicAuthPassword : JsVal
}.

Record LokiDatasource : Type := mkDatasource {
  instanceSettings_url : string;
  instanceSettings_id : Z;
  maxLines : Z
}.

(** What [metadataRequest] resolves to: [{ data: { data: values } }]. *)
Record MetadataData : Type := mkMetadataData {
  md_data : list string
}.

Record MetadataResult : Type := mkMetadataResult {
  mr_data : MetadataData
}.

(** ** Promises and network calls *)

Inductive NetCall : Type :=
| DatasourceRequest (req : JsObject)
| BackendGet (url : string).

Inductive Outcome (A : Type) : Type :=
| Resolved (a : A)
| Rejected (e : ErrorObj).

Arguments Resolved {A} a.
Arguments Rejected {A} e.

(** A promise: the calls issued while it was created, and how it settles. *)
Definition Promise (A : Type) : Type := (list NetCall * Outcome A)%type.

Definition calls {A} (p : Promise A) : list NetCall := fst p.
Definition settled {A} (p : Promise A) : Outcome A := snd p.

Definition promise_resolve {A} (a : A) : Promise A := ([], Resolved a).

(** [p.then(f)]: a handler that throws rejects the derived promise. *)
Definition promise_then {A B} (p : Promise A) (f : A -> Outcome B) : Promise B :=
  (calls p,
   match settled p with
   | Resolved a => f a
   | Rejected e => Rejected e
   end).

(** [p.then(f)] for a handler that writes to the store. *)
Definition promise_then_st {A B S} (p : Promise A) (store : S)
  (f : A -> S -> S * Outcome B) : S * Promise B :=
  match settled p with
  | Resolved a => let r := f a store in (fst r, (calls p, snd r))
  | Rejected e => (store, (calls p, Rejected e))
  end.

(** [p.catch(g)] *)
Definition promise_catch {A} (p : Promise A) (g : ErrorObj -> Outcome A) : Promise A :=
  (calls p,
   match settled p with
   | Resolved a => Resolved a
   | Rejected e => g e
   end).

Definition rejection_at {A} (outs : list (Outcome A)) (i : nat) : option ErrorObj :=
  match nth_error outs i with
  | Some (Rejected e) => Some e
  | _ => None
  end.

Fixpoint first_rejection {A} (outs : list (Outcome A)) (order : list nat)
  : option ErrorObj :=
  match order with
  | [] => None
  | i :: rest =>
      match rejection_at outs i with
      | Some e => Some e
      | None => first_rejection outs rest
      end
  end.

Fixpoint resolved_values {A} (outs : list (Outcome A)) : list A :=
  match outs with
  | [] => []
  | Resolved a :: rest => a :: resolved_values rest
  | Rejected _ :: rest => resolved_values rest
  end.

(** [Promise.all(ps)].  The promises were all created before the call;
    the result rejects with the rejection that settles first, [order]
    being the order in which the promises settle (indices a schedule
    leaves out settle last, in index order), and otherwise resolves with
    the values in index order. *)
Definition promise_all {A} (order : list nat) (ps : list (Promise A))
  : Promise (list A) :=
  let outs := map settled ps in
  (List.concat (map calls ps),
   match first_rejection outs (order ++ seq 0 (List.length outs)) with
   | Some e => Rejected e
   | None => Resolved (resolved_values outs)
   end).

(** ** Observables built by [stream] *)

(** One [_stream] pipeline: the socket opened on the looked-up URL, or
    the error the pipeline fails with (that of the lookup, or the one
    thrown while the URL is built). *)
Inductive SocketSource : Type :=
| SocketOpen (url : string)
| SocketFailed (e : ErrorObj).

Inductive Observable : Type :=
| ObsFromEmpty
| ObsCombineLatest (sources : list SocketSource).

(** ** The log aggregation utility *)

Definition entry_row (s : LogsStream) (e : LogsStreamEntry) : LogRowModel :=
  {| row_timestamp := ts e; row_entry := line e;
     row_labels := labels s; row_search := search s |}.

Definition stream_rows (s : LogsStream) : list LogRowModel :=
  map (entry_row s) (entries s).

(** Timestamps are compared as strings: the backend sends them in one
    fixed-width format, for which this is the order of time. *)
Definition newer_eq (a b : LogRowModel) : bool :=
  String.leb (row_timestamp b) (row_timestamp a).

Fixpoint insert_row (r : LogRowModel) (l : list LogRowModel) : list LogRowModel :=
  match l with
  | [] => [r]
  | x :: rest => if newer_eq r x then r :: l else x :: insert_row r rest
  end.

Definition sort_rows (l : list LogRowModel) : list LogRowModel :=
  fold_right insert_row [] l.

Definition newest_first : list LogRowModel -> Prop :=
  StronglySorted (fun a b => newer_eq a b = true).

(** Modelled from the spec: [mergeStreamsToLogs] of [./result_transformer],
    which is not among the sources.  Sections 3 and 4.3: it extracts the
    rows of all streams (each carrying its labels and search term), orders
    them by time and enforces the cap it is given.  The order is newest
    first, that of direction [BACKWARD], the only direction a query is
    sent with. *)
Definition specMergeStreamsToLogs (streams : list LogsStream) (limit : Z) : LogsModel :=
  {| rows := firstn (Z.to_nat limit) (sort_rows (flat_map stream_rows streams));
     series := None |}.

(** ** Query objects in the store *)

(** Query objects are passed by reference.  They live in a heap, a
    reference being an index into it, and a method that is handed
    references is a computation on the heap: it may read an object, write
    to one, or allocate a new one, and it fails on a reference that is not
    in the heap. *)
Definition Heap := list LokiQuery.

Definition HeapM (A : Type) : Type := Heap -> option (A * Heap).

Definition heap_ret {A} (a : A) : HeapM A := fun h => Some (a, h).

Definition heap_bind {A B} (m : HeapM A) (f : A -> HeapM B) : HeapM B :=
  fun h => match m h with Some (a, h') => f a h' | None => None end.

Notation "x <- m ;; k" := (heap_bind m (fun x => k))
  (at level 61, m at next level, right associativity).

(** Reading the properties of an object. *)
Definition heap_read (l : nat) : HeapM LokiQuery :=
  fun h => match nth_error h l with Some q => Some (q, h) | None => None end.

Fixpoint list_set {A} (l : list A) (i : nat) (a : A) : list A :=
  match l, i with
  | [], _ => []
  | _ :: rest, O => a :: rest
  | x :: rest, S i' => x :: list_set rest i' a
  end.

(** Assigning the properties of an object in place. *)
Definition heap_write (l : nat) (q : LokiQuery) : HeapM unit :=
  fun h => match nth_error h l with
           | Some _ => Some (tt, list_set h l q)
           | None => None
           end.

(** An object literal: the new object goes to the next free index. *)
Definition heap_alloc (q : LokiQuery) : HeapM nat :=
  fun h => Some (List.length h, h ++ [q]).

(** ** Sample collaborators and inputs *)

Definition sampleDatasource : LokiDatasource :=
  {| instanceSettings_url := "http://loki:3100"; instanceSettings_id := 7; maxLines := 2 |}.

Definition sampleReplace (s : string) : string := s.

(** A parser that reads the whole expression as a line filter, and the
    formatter that goes with it. *)
Definition sampleParseQuery (input : string) : ParsedQuery :=
  {| pq_query := ""; pq_regexp := input |}.

Definition sampleFormatQuery (selector search : string) : string :=
  (selector ++ search)%string.




Definition sampleAddLabel (selector key value : string) : string :=
  (selector ++ key ++ "=" ++ value)%string.

Definition sampleSeries (rs : list LogRowModel) (interval : Z) : list TimeSeries :=
  [ {| alias := "lines"; datapoints := [(Z.of_nat (List.length rs), interval)] |} ].

Definition sampleDateParse (s : string) (roundUp : bool) : Moment := 0%Z.

Definition sampleStream : LogsStream :=
  {| labels := [("job", "a")];
     entries := [ {| ts := "2019-05-01T10:00:01Z"; line := "one" |};
                  {| ts := "2019-05-01T10:00:03Z"; line := "three" |};
                  {| ts := "2019-05-01T10:00:02Z"; line := "two" |} ];
     search := JUndefined |}.

Definition otherStream : LogsStream :=
  {| labels := [("job", "b")];
     entries := [ {| ts := "2019-05-01T10:00:04Z"; line := "four" |} ];
     search := JUndefined |}.

(** The store once the responses have arrived: the stream of the first
    response at location 0, that of the second at location 1. *)
Definition sampleStore : Store :=
  fun l => match l with O => sampleStream | _ => otherStream end.

Definition streamsResponse : HttpResponse :=
  {| res_data := Some {| rd_streams := Some [0]; rd_values := None |} |}.

Definition otherResponse : HttpResponse :=
  {| res_data := Some {| rd_streams := Some [1]; rd_values := None |} |}.

Definition noLabelsResponse : HttpResponse :=
  {| res_data := Some {| rd_streams := None; rd_values := Some [] |} |}.

Definition internalError : ErrorObj :=
  {| err_statusText := Some "Internal Error"; err_status := Some 500%Z; err_data := None |}.

(** A backend that answers the query whose line filter is [a] with the
    first response and any other query with the second. *)
Definition respondWithStreams (req : JsObject) : Outcome HttpResponse :=
  if (js_toString (obj_get "url" req)
      =? "http://loki:3100/api/prom/query?direction=BACKWARD&limit=2&regexp=a&query=&start=1556704801235000000&end=1556704801235000000")%string
  then Resolved streamsResponse
  else Resolved otherResponse.

Definition respondWithoutLabels (req : JsObject) : Outcome HttpResponse :=
  Resolved noLabelsResponse.

Definition rejectAll (req : JsObject) : Outcome HttpResponse :=
  Rejected internalError.

(** A backend that fails the query whose line filter is [b]. *)
Definition rejectFilterB (req : JsObject) : Outcome HttpResponse :=
  if (js_toString (obj_get "url" req)
      =? "http://loki:3100/api/prom/query?direction=BACKWARD&limit=2&regexp=b&query=&start=1556704801235000000&end=1556704801235000000")%string
  then Rejected internalError
  else Resolved streamsResponse.

Definition queryA : LokiQuery :=
  {| refId := "A"; expr := "a"; format := Some "time_series"; hide := None |}.

Definition queryB : LokiQuery :=
  {| refId := "B"; expr := "b"; format := None; hide := Some false |}.

Definition queryHidden : LokiQuery :=
  {| refId := "C"; expr := "c"; format := None; hide := Some true |}.

Definition queryEmpty : LokiQuery :=
  {| refId := "D"; expr := ""; format := None; hide := None |}.

Definition sampleRange : TimeRange :=
  {| from := DateMoment 1556704801235%Z; to := DateMoment 1556704801235%Z |}.

Definition sampleOptions : DataQueryOptions :=
  {| targets := [queryA; queryB; queryHidden]; range := sampleRange;
     intervalMs := 1000; streaming := None |}.

Definition rawOptions : DataQueryOptions :=
  {| targets := [queryB; queryA]; range := sampleRange;
     intervalMs := 1000; streaming := None |}.

Definition hiddenOptions : DataQueryOptions :=
  {| targets := [queryHidden; queryEmpty]; range := sampleRange;
     intervalMs := 1000; streaming := None |}.


Definition noopAction : Action :=
  {| action_type := "TOGGLE"; action_key := ""; action_value := "" |}.

Definition streamingOptions : DataQueryOptions :=
  {| targets := [queryA; queryB]; range := sampleRange;
     intervalMs := 1000; streaming := Some true |}.

(** [queryA] again, under another identifier and with other display
    settings. *)
Definition queryAgain : LokiQuery :=
  {| refId := "Z"; expr := "a"; format := None; hide := Some false |}.



Definition labelsResponse : HttpResponse :=
  {| res_data := Some {| rd_streams := None; rd_values := Some ["job"; "env"] |} |}.

Definition respondWithLabels (req : JsObject) : Outcome HttpResponse :=
  Resolved labelsResponse.

Definition sampleInfo : DatasourceInfo :=
  {| info_url := JStr "http://loki:3100"; basicAuthUser := JStr "u";
     basicAuthPassword := JStr "p@ss" |}.

(** A lookup that gives a URL without a scheme. *)
Definition resolveBareLookup (url : string) : Outcome DatasourceInfo :=
  Resolved {| info_url := JStr "loki:3100"; basicAuthUser := JStr "u";
              basicAuthPassword := JStr "p" |}.

(** A lookup for a datasource without basic authentication. *)
Definition resolveOpenLookup (url : string) : Outcome DatasourceInfo :=
  Resolved {| info_url := JStr "http://loki:3100"; basicAuthUser := JUndefined;
              basicAuthPassword := JUndefined |}.

(** The host of an [http] URL without a path; a string without that
    scheme is refused. *)
Definition sampleUrlHost (url : string) : option string :=
  if String.prefix "http://" url then Some (string_drop 7 url) else None.

Definition resolveLookup (url : string) : Outcome DatasourceInfo :=
  Resolved sampleInfo.

Definition sampleRequestOptions : JsObject :=
  [ ("url", JStr "http://elsewhere"); ("silent", JBool true) ].

(** ** The datasource *)

Section Datasource.

(** Collaborators that are not part of the class: the host's template
    service and transport, the query parser and formatter, the selector
    helper, the log aggregation utilities, the date parser, the clock, and
    the URL parser ([url_host url] is [new URL('', url).host], [None] when
    the constructor throws, as it does for a URL without a scheme). *)
Variable templateSrv_replace : string -> string.
Variable parseQuery : string -> ParsedQuery.
Variable formatQuery : string -> string -> string.
Variable addLabelToSelector : string -> string -> string -> string.
Variable mergeStreamsToLogs : list LogsStream -> Z -> LogsModel.
Variable makeSeriesForLogs : list LogRowModel -> Z -> list TimeSeries.
Variable dateMath_parse : string -> bool -> Moment.
Variable moment_now : Moment.
Variable EXPLORE_POLLING_INTERVAL_MS : Z.
Variable url_host : string -> option string.
Variable datasourceRequest : JsObject -> Outcome HttpResponse.
Variable backendSrv_get : string -> Outcome DatasourceInfo.
Variable settleOrder : list nat.

Variable this : LokiDatasource.

(** The constructor's choice of [maxLines]: the parsed setting ([None]
    when [parseInt] gives [NaN]), or the default when that is falsy. *)
Definition configuredMaxLines (parsed : option Z) : Z :=
  match parsed with
  | Some n => if Z.eqb n 0 then DEFAULT_MAX_LINES else n
  | None => DEFAULT_MAX_LINES
  end.

Definition _request (apiUrl : string) (data options : option JsObject)
  : Promise HttpResponse :=
  let baseUrl := instanceSettings_url this in
  let params := match data with Some d => serializeParams d | None => "" end in
  let url := (baseUrl ++ apiUrl ++ "?" ++ params)%string in
  let req :=
    obj_set "url" (JStr url)
      (obj_spread [] (match options with Some o => o | None => [] end)) in
  ([DatasourceRequest req], datasourceRequest req).

Definition _stream (apiUrl : string) (data : option JsObject)
  : list NetCall * SocketSource :=
  let lookup := ("api/datasources/" ++ string_of_Z (instanceSettings_id this))%string in
  ([BackendGet lookup],
   match backendSrv_get lookup with
   | Resolved result =>
       match url_host (js_toString (info_url result)) with
       | Some baseUrl_host =>
           let params := match data with Some d => serializeParams d | None => "" end in
           SocketOpen ("ws://" ++ js_toString (basicAuthUser result) ++ ":"
                       ++ js_toString (basicAuthPassword result)
                       ++ "@" ++ baseUrl_host ++ apiUrl ++ "?" ++ params)%string
       | None => SocketFailed typeError
       end
   | Rejected e => SocketFailed e
   end).

Definition mergeStreams (streams : list LogsStream) (intervalMs : Z) : LogsModel :=
  let logs := mergeStreamsToLogs streams (maxLines this) in
  {| rows := rows logs; series := Some (makeSeriesForLogs (rows logs) intervalMs) |}.

Definition getTime (date : DateInput) (roundUp : bool) : Z :=
  let date :=
    match date with
    | DateString s => dateMath_parse s roundUp
    | DateMoment m => m
    end in
  Math_ceil (inject_Z (double_mul date 1000000)).

Definition is_streaming (options : DataQueryOptions) : bool :=
  match streaming options with Some b => b | None => false end.

Definition prepareQueryTarget (target : LokiQuery) (options : DataQueryOptions)
  : JsObject :=
  let streaming := is_streaming options in
  let interpolated := templateSrv_replace (expr target) in
  let now := moment_now in
  let liveStreamStart := (now - EXPLORE_POLLING_INTERVAL_MS)%Z in
  let liveStreamEnd := now in
  let start :=
    if streaming then getTime (DateMoment liveStreamStart) false
    else getTime (from (range options)) false in
  let end_ :=
    if streaming then getTime (DateMoment liveStreamEnd) true
    else getTime (to (range options)) true in
  obj_set "limit" (JNum (maxLines this))
    (obj_set "end" (JNum end_)
       (obj_set "start" (JNum start)
          (obj_spread (obj_spread [] DEFAULT_QUERY_PARAMS)
             (parsed_obj (parseQuery interpolated))))).

Definition prepareStreamQueryTarget (target : LokiQuery) (options : DataQueryOptions)
  : JsObject :=
  let interpolated := templateSrv_replace (expr target) in
  obj_spread [] (parsed_obj (parseQuery interpolated)).

(** [target.expr && !target.hide] *)
Definition active (target : LokiQuery) : bool :=
  truthy_string (expr target)
  && negb (match hide target with Some b => b | None => false end).

Definition stream (options : DataQueryOptions) : list NetCall * Observable :=
  let queryTargets :=
    map (fun target => prepareStreamQueryTarget target options)
      (filter active (targets options)) in
  if Nat.eqb (List.length queryTargets) 0 then ([], ObsFromEmpty)
  else
    let queryStreams := map (fun target => _stream "/api/prom/tail" (Some target))
                          queryTargets in
    (List.concat (map fst queryStreams), ObsCombineLatest (map snd queryStreams)).

(** The inner loop of [query]:
    [stream.search = query.regexp; allStreams.push(stream)]. *)
Fixpoint tagStreams (regexp : JsVal) (streams : list Loc)
  (store : Store) (allStreams : list Loc) : Store * list Loc :=
  match streams with
  | [] => (store, allStreams)
  | stream :: rest =>
      tagStreams regexp rest
        (store_set store stream (set_search regexp (store stream)))
        (allStreams ++ [stream])
  end.

(** The outer [for] loop of [query]: [n] iterations remain, [i] is the
    loop index.  [None] is the [TypeError] of reading a property of
    [undefined]. *)
Fixpoint collectStreams (results : list HttpResponse) (queryTargets : list JsObject)
  (n i : nat) (store : Store) (allStreams : list Loc) : Store * option (list Loc) :=
  match n with
  | O => (store, Some allStreams)
  | S n' =>
      match nth_error results i with
      | None => (store, None)
      | Some result =>
          match res_data result with
          | None => collectStreams results queryTargets n' (S i) store allStreams
          | Some d =>
              match match rd_streams d with Some l => l | None => [] end with
              | [] => collectStreams results queryTargets n' (S i) store allStreams
              | streams =>
                  match nth_error queryTargets i with
                  | None => (store, None)
                  | Some query =>
                      let tagged :=
                        tagStreams (obj_get "regexp" query) streams store allStreams in
                      collectStreams results queryTargets n' (S i) (fst tagged) (snd tagged)
                  end
              end
          end
      end
  end.

Definition is_time_series (f : option string) : bool :=
  match f with Some s => (s =? "time_series")%string | None => false end.

(** [query] starts from the store that holds the stream objects of the
    responses and returns the store it leaves behind. *)
Definition query (store : Store) (options : DataQueryOptions)
  : Store * Promise DataQueryResponse :=
  let queryTargets :=
    map (fun target => prepareQueryTarget target options)
      (filter active (targets options)) in
  if Nat.eqb (List.length queryTargets) 0 then (store, promise_resolve {| data := [] |})
  else
    let queries := map (fun target => _request "/api/prom/query" (Some target) None)
                     queryTargets in
    promise_then_st (promise_all settleOrder queries) store
      (fun results store =>
         match collectStreams results queryTargets (List.length results) 0 store [] with
         | (store, None) => (store, Rejected typeError)
         | (store, Some allStreams) =>
             match nth_error (targets options) 0 with
             | None => (store, Rejected typeError)
             | Some first =>
                 if is_time_series (format first) then
                   let logs := mergeStreamsToLogs (map store allStreams) (maxLines this) in
                   let logs_series := makeSeriesForLogs (rows logs) (intervalMs options) in
                   (store, Resolved {| data := map SeriesDatum logs_series |})
                 else (store, Resolved {| data := map StreamDatum allStreams |})
             end
         end).

(** [query] is a reference.  [query.expr] is read first; the object
    literal [{ ...query, expr: expression }] reads the properties of
    [query] again and allocates the object that is returned. *)
Definition modifyQuery (query : nat) (action : Action) : HeapM nat :=
  q <- heap_read query ;;
  let parsed := parseQuery (if truthy_string (expr q) then expr q else "") in
  let selector := pq_query parsed in
  let selector :=
    if (action_type action =? "ADD_FILTER")%string
    then addLabelToSelector selector (action_key action) (action_value action)
    else selector in
  let expression := formatQuery selector (pq_regexp parsed) in
  q <- heap_read query ;;
  heap_alloc {| refId := refId q; expr := expression;
                format := format q; hide := hide q |}.


Definition has_labels (res : HttpResponse) : bool :=
  match res_data res with
  | Some d =>
      match rd_values d with
      | Some values => Nat.ltb 0 (List.length values)
      | None => false
      end
  | None => false
  end.

Definition connectionError (err : ErrorObj) : TestResult :=
  let message := "Loki: " in
  let message :=
    match err_statusText err with
    | Some statusText =>
        if truthy_string statusText then (message ++ statusText)%string
        else (message ++ "Cannot connect to Loki")%string
    | None => (message ++ "Cannot connect to Loki")%string
    end in
  let message :=
    match err_status err with
    | Some code =>
        if Z.eqb code 0 then message else (message ++ ". " ++ string_of_Z code)%string
    | None => message
    end in
  let message :=
    match err_data err with
    | Some (BodyObject (Some m)) =>
        if truthy_string m then (message ++ ". " ++ m)%string
        else (message ++ ". " ++ "[object Object]")%string
    | Some (BodyObject None) => (message ++ ". " ++ "[object Object]")%string
    | Some (BodyRaw raw) =>
        if truthy_string raw then (message ++ ". " ++ raw)%string else message
    | None => message
    end in
  {| status := "error"; message := message |}.

Definition testDatasource : Promise TestResult :=
  promise_catch
    (promise_then (_request "/api/prom/label" None None)
       (fun res =>
          if has_labels res then
            Resolved {| status := "success";
                        message := "Data source connected and labels found." |}
          else
            Resolved {| status := "error";
                        message := "Data source connected, but no labels received. Verify that Loki and Promtail is configured properly." |}))
    (fun err => Resolved (connectionError err)).

(** *** Vocabulary of the statements *)

(** The request object [query] submits for a target. *)
Definition requestFor (options : DataQueryOptions) (target : LokiQuery) : JsObject :=
  [ ("url",
     JStr (instanceSettings_url this ++ "/api/prom/query" ++ "?"
           ++ serializeParams (prepareQueryTarget target options))%string) ].

(** The line filter of a target: the [regexp] of its parsed, interpolated
    expression. *)
Definition targetRegexp (target : LokiQuery) : string :=
  pq_regexp (parseQuery (templateSrv_replace (expr target))).

Definition responseStreams (res : HttpResponse) : list Loc :=
  match res_data res with
  | Some d => match rd_streams d with Some l => l | None => [] end
  | None => []
  end.

Definition outcomeStreams (o : Outcome HttpResponse) : list Loc :=
  match o with
  | Resolved res => responseStreams res
  | Rejected _ => []
  end.

(** The stream objects of the response to a target's own request. *)
Definition targetStreams (options : DataQueryOptions) (target : LokiQuery) : list Loc :=
  outcomeStreams (datasourceRequest (requestFor options target)).

(** The stream objects of all responses, in the order of the active
    targets. *)
Definition combinedStreams (options : DataQueryOptions) : list Loc :=
  flat_map (targetStreams options) (filter active (targets options)).

Definition outcomeResponse (o : Outcome HttpResponse) : HttpResponse :=
  match o with
  | Resolved res => res
  | Rejected _ => {| res_data := None |}
  end.

(** Writing one search term to each of some objects. *)
Definition tagAll (regexp : JsVal) (streams : list Loc) (store : Store) : Store :=
  fold_left (fun st l => store_set st l (set_search regexp (st l))) streams store.

(** Responses paired with prepared targets by position. *)
Fixpoint storeByPosition (results : list HttpResponse) (queryTargets : list JsObject)
  (store : Store) : Store :=
  match results, queryTargets with
  | r :: rs, q :: qs =>
      storeByPosition rs qs (tagAll (obj_get "regexp" q) (responseStreams r) store)
  | _, _ => store
  end.

(** The store [query] leaves behind: each active target in turn has its
    line filter written to the stream objects of its response. *)
Definition taggedStore (store : Store) (options : DataQueryOptions) : Store :=
  fold_left
    (fun st target => tagAll (JStr (targetRegexp target)) (targetStreams options target) st)
    (filter active (targets options)) store.


(** Two targets that differ at most in their display format. *)
Definition sameButFormat (t t' : LokiQuery) : Prop :=
  refId t = refId t' /\ expr t = expr t' /\ hide t = hide t'.

Definition withTargets (options : DataQueryOptions) (ts : list LokiQuery)
  : DataQueryOptions :=
  {| targets := ts; range := range options;
     intervalMs := intervalMs options; streaming := streaming options |}.

(** The lookup every [_stream] call starts with. *)
Definition lookupUrl : string :=
  ("api/datasources/" ++ string_of_Z (instanceSettings_id this))%string.

(** The socket [stream] opens for a target. *)
Definition socketFor (options : DataQueryOptions) (target : LokiQuery) : SocketSource :=
  snd (_stream "/api/prom/tail" (Some (prepareStreamQueryTarget target options))).

(** The request object of the health check. *)
Definition labelRequest : JsObject :=
  [ ("url", JStr (instanceSettings_url this ++ "/api/prom/label" ++ "?" ++ "")%string) ].

Definition labelValues (res : HttpResponse) : list string :=
  match res_data res with
  | Some d => match rd_values d with Some values => values | None => [] end
  | None => []
  end.

Definition noLabelsMessage : string :=
  "Data source connected, but no labels received. Verify that Loki and Promtail is configured properly.".

(** A property counts as present when it is truthy. *)
Definition statusTextPart (err : ErrorObj) : string :=
  match err_statusText err with
  | Some t => if truthy_string t then t else "Cannot connect to Loki"
  | None => "Cannot connect to Loki"
  end.

Definition statusCodePart (err : ErrorObj) : list string :=
  match err_status err with
  | Some code => if Z.eqb code 0 then [] else [string_of_Z code]
  | None => []
  end.

(** The message of a structured body when it has one, the body itself
    otherwise. *)
Definition bodyPart (err : ErrorObj) : list string :=
  match err_data err with
  | Some (BodyObject (Some m)) => if truthy_string m then [m] else ["[object Object]"]
  | Some (BodyObject None) => ["[object Object]"]
  | Some (BodyRaw raw) => if truthy_string raw then [raw] else []
  | None => []
  end.

(** The parts that are present, in the order status text, status code,
    body, joined by [". "] after the prefix. *)
Definition assembledMessage (err : ErrorObj) : string :=
  ("Loki: "
   ++ String.concat ". " (statusTextPart err :: statusCodePart err ++ bodyPart err))%string.


Definition contains (needle hay : string) : Prop :=
  exists pre post, hay = (pre ++ needle ++ post)%string.

Definition allResolved (options : DataQueryOptions) : Prop :=
  forall target, In target (filter active (targets options)) ->
    exists res, datasourceRequest (requestFor options target) = Resolved res.

(** *** The rest of the class *)

(** The constructor: [maxLines] comes from the parsed setting. *)
Definition newLokiDatasource (url : string) (id : Z) (parsedMaxLines : option Z)
  : LokiDatasource :=
  {| instanceSettings_url := url; instanceSettings_id := id;
     maxLines := configuredMaxLines parsedMaxLines |}.

Definition metadataRequest (url : string) : Promise MetadataResult :=
  let apiUrl := replace_first "v1" "prom" url in
  promise_then (_request apiUrl (Some [("silent", JBool true)]) None)
    (fun res =>
       match res_data res with
       | None => Rejected typeError
       | Some d =>
           Resolved
             {| mr_data :=
                  {| md_data := match rd_values d with
                                | Some values => values
                                | None => []
                                end |} |}
       end).

Definition withRange (options : DataQueryOptions) (r : TimeRange) : DataQueryOptions :=
  {| targets := targets options; range := r;
     intervalMs := intervalMs options; streaming := streaming options |}.

(** The selector of a target: the [query] of its parsed, interpolated
    expression. *)
Definition targetSelector (target : LokiQuery) : string :=
  pq_query (parseQuery (templateSrv_replace (expr target))).

(** The request object of [metadataRequest] for an API path. *)
Definition metadataRequestFor (apiUrl : string) : JsObject :=
  [ ("url", JStr (instanceSettings_url this ++ apiUrl ++ "?silent=true")%string) ].

(** *** Serialized parameters *)

Lemma string_forall_app p a b :
  string_forall p (a ++ b) = string_forall p a && string_forall p b.
Proof using. induction a as [|c a IH]; simpl; [reflexivity|]. now rewrite IH, andb_assoc. Qed.

Lemma string_forall_impl (p q : ascii -> bool) s :
  (forall c, p c = true -> q c = true) ->
  string_forall p s = true -> string_forall q s = true.
Proof using.
  intros H. induction s as [|c s IH]; simpl; [reflexivity|].
  rewrite !andb_true_iff. intros [Hc Hs]. auto.
Qed.

Lemma count_char_app c a b : count_char c (a ++ b) = count_char c a + count_char c b.
Proof using. induction a as [|d a IH]; simpl; [reflexivity|]. rewrite IH. lia. Qed.

Lemma count_char_absent p c s :
  p c = false -> string_forall p s = true -> count_char c s = 0.
Proof using.
  intros Hc. induction s as [|d s IH]; simpl; [reflexivity|].
  rewrite andb_true_iff. intros [Hd Hs]. rewrite (IH Hs).
  destruct (Ascii.eqb_spec d c); [congruence | reflexivity].
Qed.

Lemma hex_digit_unreserved n : n < 16 -> is_unreserved (hex_digit n) = true.
Proof using.
  intros H. do 16 (destruct n as [|n]; [reflexivity|]). lia.
Qed.

Lemma nat_of_ascii_lt c : nat_of_ascii c < 256.
Proof using. apply nat_ascii_bounded. Qed.

Lemma encodeURIComponent_cons c s :
  encodeURIComponent (String c s) =
  if is_unreserved c then String c (encodeURIComponent s)
  else String "%" (String (hex_digit (nat_of_ascii c / 16))
         (String (hex_digit (nat_of_ascii c mod 16)) (encodeURIComponent s))).
Proof using. reflexivity. Qed.

Lemma hex_high c : nat_of_ascii c / 16 < 16.
Proof using. apply Nat.Div0.div_lt_upper_bound. pose proof (nat_of_ascii_lt c). lia. Qed.

Lemma hex_low c : nat_of_ascii c mod 16 < 16.
Proof using. apply Nat.mod_upper_bound. lia. Qed.

Lemma encodeURIComponent_chars s :
  string_forall is_encoded_char (encodeURIComponent s) = true.
Proof using.
  induction s as [|c s IH]; [reflexivity|].
  rewrite encodeURIComponent_cons.
  destruct (is_unreserved c) eqn:E; cbn [string_forall].
  - unfold is_encoded_char at 1. now rewrite E, IH.
  - rewrite IH. unfold is_encoded_char.
    now rewrite (hex_digit_unreserved _ (hex_high c)), (hex_digit_unreserved _ (hex_low c)).
Qed.

Lemma nat_of_hex_digit n : n < 16 ->
  nat_of_ascii (hex_digit n) = if Nat.ltb n 10 then 48 + n else 55 + n.
Proof using.
  intros H. do 16 (destruct n as [|n]; [reflexivity|]). lia.
Qed.

Lemma hex_digit_inj a b : a < 16 -> b < 16 -> hex_digit a = hex_digit b -> a = b.
Proof using.
  intros Ha Hb H. apply (f_equal nat_of_ascii) in H.
  rewrite !nat_of_hex_digit in H by assumption.
  destruct (Nat.ltb_spec a 10), (Nat.ltb_spec b 10); lia.
Qed.

Lemma nat_of_ascii_inj c d : nat_of_ascii c = nat_of_ascii d -> c = d.
Proof using.
  intros H. rewrite <- (ascii_nat_embedding c), <- (ascii_nat_embedding d). now rewrite H.
Qed.

Lemma encodeURIComponent_inj s1 s2 :
  encodeURIComponent s1 = encodeURIComponent s2 -> s1 = s2.
Proof using.
  revert s2. induction s1 as [|c1 s1 IH]; intros [|c2 s2].
  - reflexivity.
  - rewrite encodeURIComponent_cons. simpl. destruct (is_unreserved c2); discriminate.
  - rewrite encodeURIComponent_cons. simpl. destruct (is_unreserved c1); discriminate.
  - rewrite !encodeURIComponent_cons.
    destruct (is_unreserved c1) eqn:E1, (is_unreserved c2) eqn:E2; intros H.
    + injection H as -> H. f_equal. now apply IH.
    + injection H as -> _. discriminate E1.
    + injection H as <- _. discriminate E2.
    + injection H as Hh Hl H. f_equal; [|now apply IH].
      apply hex_digit_inj in Hh; [|apply hex_high..].
      apply hex_digit_inj in Hl; [|apply hex_low..].
      apply nat_of_ascii_inj.
      change (nat_of_ascii c1 / 16 = nat_of_ascii c2 / 16) in Hh.
      change (nat_of_ascii c1 mod 16 = nat_of_ascii c2 mod 16) in Hl.
      pose proof (Nat.div_mod_eq (nat_of_ascii c1) 16).
      pose proof (Nat.div_mod_eq (nat_of_ascii c2) 16). lia.
Qed.

Lemma serializeParams_pairs data :
  serializeParams data = String.concat "&" (map param_pair data).
Proof using. reflexivity. Qed.

Lemma concat_cons sep x xs :
  String.concat sep (x :: xs) =
  (x ++ match xs with [] => "" | _ => sep ++ String.concat sep xs end)%string.
Proof using.
  destruct xs; simpl; [|reflexivity].
  induction x as [|c x IH]; simpl; [reflexivity | now rewrite <- IH].
Qed.

Lemma is_encoded_params c : is_encoded_char c = true -> is_params_char c = true.
Proof using. unfold is_params_char. now intros ->. Qed.

Lemma param_pair_chars kv : string_forall is_params_char (param_pair kv) = true.
Proof using.
  unfold param_pair. rewrite !string_forall_app, !andb_true_iff. repeat split.
  - eapply string_forall_impl; [apply is_encoded_params | apply encodeURIComponent_chars].
  - eapply string_forall_impl; [apply is_encoded_params | apply encodeURIComponent_chars].
Qed.

Lemma param_pair_count_eq kv : count_char "=" (param_pair kv) = 1.
Proof using.
  unfold param_pair. rewrite !count_char_app.
  rewrite !(count_char_absent is_encoded_char "=" _ eq_refl (encodeURIComponent_chars _)).
  reflexivity.
Qed.

Lemma param_pair_count_amp kv : count_char "&" (param_pair kv) = 0.
Proof using.
  unfold param_pair. rewrite !count_char_app.
  rewrite !(count_char_absent is_encoded_char "&" _ eq_refl (encodeURIComponent_chars _)).
  reflexivity.
Qed.

Lemma concat_pairs_shape data :
  string_forall is_params_char (String.concat "&" (map param_pair data)) = true
  /\ count_char "=" (String.concat "&" (map param_pair data)) = List.length data
  /\ count_char "&" (String.concat "&" (map param_pair data)) = List.length data - 1.
Proof using.
  induction data as [|kv data (IH1 & IH2 & IH3)]; [now repeat split|].
  cbn [map]. rewrite concat_cons.
  destruct data as [|kv' data].
  - cbn [map]. rewrite !count_char_app, string_forall_app.
    rewrite param_pair_chars, param_pair_count_eq, param_pair_count_amp. now repeat split.
  - remember (kv' :: data) as rest.
    destruct (map param_pair rest) as [|p ps] eqn:Em; [subst; discriminate|].
    rewrite !count_char_app, !string_forall_app.
    rewrite param_pair_chars, param_pair_count_eq, param_pair_count_amp.
    rewrite IH1, IH2, IH3. subst rest. cbn [List.length count_char string_forall].
    repeat split; simpl; lia.
Qed.

(** X1. A serialized parameter bag consists of unreserved characters, [%],
    [=] and [&] only, with one [=] for each pair and one [&] between two
    pairs: no key or value can add a separator or any of [? # / + : @] or a
    space. *)
Theorem serializeParams_shape data :
  string_forall is_params_char (serializeParams data) = true
  /\ count_char "=" (serializeParams data) = List.length data
  /\ count_char "&" (serializeParams data) = List.length data - 1
  /\ (forall c, In c ["?"; "#"; "/"; " "; "+"; ":"; "@"]%char ->
                count_char c (serializeParams data) = 0).
Proof using.
  rewrite serializeParams_pairs.
  destruct (concat_pairs_shape data) as (H1 & H2 & H3). repeat split; auto.
  intros c Hc. apply (count_char_absent is_params_char); [|exact H1].
  simpl in Hc. repeat (destruct Hc as [<- | Hc]; [reflexivity|]). destruct Hc.
Qed.

Lemma app_sep_unique (sep : ascii) (x y r r' : string) :
  count_char sep x = 0 -> count_char sep y = 0 ->
  (r = "" \/ exists r0, r = String sep r0) ->
  (r' = "" \/ exists r0, r' = String sep r0) ->
  (x ++ r = y ++ r')%string -> x = y /\ r = r'.
Proof using.
  revert y. induction x as [|c x IH]; intros [|d y] Hx Hy Hr Hr' H; simpl in *.
  - now split.
  - exfalso. destruct Hr as [-> | [r0 ->]]; [discriminate|].
    injection H as <- _. rewrite Ascii.eqb_refl in Hy. discriminate.
  - exfalso. destruct Hr' as [-> | [r0 ->]]; [discriminate|].
    injection H as -> _. rewrite Ascii.eqb_refl in Hx. discriminate.
  - injection H as -> H.
    assert (Hx' : count_char sep x = 0) by lia.
    assert (Hy' : count_char sep y = 0) by lia.
    destruct (IH y Hx' Hy' Hr Hr' H) as [-> ->]. now split.
Qed.

Lemma concat_sep_inj (sep : ascii) (l l' : list string) :
  Forall (fun x => count_char sep x = 0 /\ x <> "") l ->
  Forall (fun x => count_char sep x = 0 /\ x <> "") l' ->
  String.concat (String sep "") l = String.concat (String sep "") l' -> l = l'.
Proof using.
  intros Hl. revert l'. induction Hl as [|x xs [Hx Hne] Hxs IH]; intros l' Hl' H.
  - destruct Hl' as [|y ys [_ Hy] _]; [reflexivity|].
    rewrite concat_cons in H. destruct y; [congruence | discriminate].
  - destruct Hl' as [|y ys [Hy Hyne] Hys].
    + rewrite concat_cons in H. destruct x; [congruence | discriminate].
    + rewrite !concat_cons in H.
      apply (app_sep_unique sep) in H as [-> H]; auto.
      * f_equal. destruct xs as [|z zs], ys as [|w ws]; try discriminate; [reflexivity|].
        injection H as H. now apply IH.
      * destruct xs; [now left | right; eexists; reflexivity].
      * destruct ys; [now left | right; eexists; reflexivity].
Qed.

Lemma param_pair_inj kv kv' :
  param_pair kv = param_pair kv' ->
  fst kv = fst kv' /\ js_toString (snd kv) = js_toString (snd kv').
Proof using.
  unfold param_pair. intros H.
  apply (app_sep_unique "=") in H as [Hk Hv].
  - injection Hv as Hv. split; now apply encodeURIComponent_inj.
  - apply (count_char_absent is_encoded_char); [reflexivity | apply encodeURIComponent_chars].
  - apply (count_char_absent is_encoded_char); [reflexivity | apply encodeURIComponent_chars].
  - right. eexists. reflexivity.
  - right. eexists. reflexivity.
Qed.

Lemma param_pair_piece kv :
  count_char "&" (param_pair kv) = 0 /\ param_pair kv <> "".
Proof using.
  split; [apply param_pair_count_amp|].
  intros H. pose proof (param_pair_count_eq kv) as Hc. rewrite H in Hc. discriminate.
Qed.

Lemma serializeParams_pairs_inj (data data' : JsObject) :
  serializeParams data = serializeParams data' ->
  map param_pair data = map param_pair data'.
Proof using.
  rewrite !serializeParams_pairs. intros H.
  apply (concat_sep_inj "&") in H; [exact H | |];
    apply Forall_forall; intros x Hx; apply in_map_iff in Hx as (kv & <- & _);
    apply param_pair_piece.
Qed.

(** X2. Two parameter bags are serialized to the same string only when they
    have the same keys, in the same order, with values that print the
    same. *)
Theorem serializeParams_injective (data data' : JsObject) :
  serializeParams data = serializeParams data' ->
  map (fun kv => (fst kv, js_toString (snd kv))) data
  = map (fun kv => (fst kv, js_toString (snd kv))) data'.
Proof using.
  intros H. apply serializeParams_pairs_inj in H.
  revert data' H. induction data as [|kv data IH]; intros [|kv' data'] H;
    try discriminate; [reflexivity|].
  cbn [map] in *. injection H as Hp H.
  apply param_pair_inj in Hp as [-> ->]. f_equal. now apply IH.
Qed.

(** *** Promises *)

Lemma configuredMaxLines_nonzero parsed : configuredMaxLines parsed <> 0%Z.
Proof.
  unfold configuredMaxLines. destruct parsed as [n|]; [|discriminate].
  destruct (Z.eqb_spec n 0); [discriminate | assumption].
Qed.

Lemma first_rejection_none {A} (outs : list (Outcome A)) (order : list nat) :
  (forall i, rejection_at outs i = None) -> first_rejection outs order = None.
Proof.
  intros H; induction order as [|i order IH]; simpl; [reflexivity|].
  now rewrite H.
Qed.

Lemma first_rejection_some {A} (outs : list (Outcome A)) (order : list nat) i e :
  In i order -> rejection_at outs i = Some e ->
  exists e', first_rejection outs order = Some e'.
Proof.
  induction order as [|j order IH]; simpl; [intros []|].
  intros [-> | Hin] He.
  - rewrite He. now exists e.
  - destruct (rejection_at outs j) as [e'|]; [now exists e' | now apply IH].
Qed.

Lemma first_rejection_is_rejection {A} (outs : list (Outcome A)) order e :
  first_rejection outs order = Some e -> In (Rejected e) outs.
Proof.
  induction order as [|j order IH]; simpl; [discriminate|].
  unfold rejection_at at 1.
  destruct (nth_error outs j) as [[a|e']|] eqn:Hn; try exact IH.
  intros [= ->]. eapply nth_error_In; eauto.
Qed.

Lemma rejected_has_index {A} (outs : list (Outcome A)) e :
  In (Rejected e) outs ->
  exists i, In i (seq 0 (List.length outs)) /\ rejection_at outs i = Some e.
Proof.
  intros Hin. apply In_nth_error in Hin as [i Hi].
  exists i. split.
  - apply in_seq. split; [lia|]. simpl.
    apply nth_error_Some. now rewrite Hi.
  - unfold rejection_at. now rewrite Hi.
Qed.

Lemma all_resolved_no_rejection {A} (outs : list (Outcome A)) (vals : list A) :
  outs = map Resolved vals -> forall i, rejection_at outs i = None.
Proof.
  intros -> i. unfold rejection_at.
  rewrite nth_error_map. now destruct (nth_error vals i).
Qed.

Lemma resolved_values_map {A} (vals : list A) :
  resolved_values (map Resolved vals) = vals.
Proof.
  induction vals as [|v vals IH]; simpl; [reflexivity | now rewrite IH].
Qed.

Lemma settled_promise_all {A} order (ps : list (Promise A)) :
  settled (promise_all order ps) =
  match first_rejection (map settled ps)
          (order ++ seq 0 (List.length (map settled ps))) with
  | Some e => Rejected e
  | None => Resolved (resolved_values (map settled ps))
  end.
Proof. reflexivity. Qed.

Lemma promise_all_resolved {A} order (ps : list (Promise A)) (vals : list A) :
  map settled ps = map Resolved vals ->
  settled (promise_all order ps) = Resolved vals.
Proof.
  intros H. rewrite settled_promise_all, H.
  rewrite first_rejection_none by (eapply all_resolved_no_rejection; reflexivity).
  now rewrite resolved_values_map.
Qed.

Lemma promise_all_rejected {A} order (ps : list (Promise A)) e :
  In (Rejected e) (map settled ps) ->
  exists e', settled (promise_all order ps) = Rejected e'
             /\ In (Rejected e') (map settled ps).
Proof.
  intros Hin. rewrite settled_promise_all.
  destruct (rejected_has_index _ _ Hin) as (i & Hi & He).
  destruct (first_rejection_some (map settled ps)
              (order ++ seq 0 (List.length (map settled ps))) i e) as [e' He'].
  - apply in_or_app. now right.
  - exact He.
  - rewrite He'. exists e'. split; [reflexivity|].
    eapply first_rejection_is_rejection; eauto.
Qed.

(** *** The batch query *)

Lemma prepareQueryTarget_regexp target options :
  obj_get "regexp" (prepareQueryTarget target options) = JStr (targetRegexp target).
Proof. reflexivity. Qed.

Lemma request_query_target target options :
  _request "/api/prom/query" (Some (prepareQueryTarget target options)) None =
  ([DatasourceRequest (requestFor options target)],
   datasourceRequest (requestFor options target)).
Proof. reflexivity. Qed.

Lemma skipn_nth_error {A} (l : list A) i x :
  nth_error l i = Some x -> skipn i l = x :: skipn (S i) l.
Proof.
  revert i; induction l as [|y l IH]; intros [|i]; simpl; try discriminate.
  - now intros [= ->].
  - intros H. now apply IH.
Qed.

Lemma tagStreams_tagAll regexp streams store allStreams :
  tagStreams regexp streams store allStreams =
  (tagAll regexp streams store, allStreams ++ streams).
Proof.
  revert store allStreams.
  induction streams as [|x streams IH]; intros store allStreams; simpl.
  - now rewrite app_nil_r.
  - rewrite IH. unfold tagAll. simpl. now rewrite <- app_assoc.
Qed.

Lemma collectStreams_by_position results queryTargets :
  List.length results = List.length queryTargets ->
  forall n i store allStreams,
    i + n = List.length results ->
    collectStreams results queryTargets n i store allStreams =
    (storeByPosition (skipn i results) (skipn i queryTargets) store,
     Some (allStreams ++ flat_map responseStreams (skipn i results))).
Proof.
  intros Hlen. induction n as [|n IH]; intros i store acc Hi; simpl.
  - rewrite Nat.add_0_r in Hi. subst i.
    rewrite skipn_all. simpl. now rewrite app_nil_r.
  - destruct (nth_error results i) as [r|] eqn:Hr.
    2:{ apply nth_error_None in Hr. lia. }
    destruct (nth_error queryTargets i) as [q|] eqn:Hq.
    2:{ apply nth_error_None in Hq. lia. }
    rewrite (skipn_nth_error _ _ _ Hr), (skipn_nth_error _ _ _ Hq).
    simpl. unfold responseStreams.
    destruct (res_data r) as [d|].
    + destruct (rd_streams d) as [[|l ls]|].
      * simpl. apply IH. lia.
      * rewrite tagStreams_tagAll. cbn [fst snd].
        rewrite IH by lia. rewrite <- !app_assoc. reflexivity.
      * simpl. apply IH. lia.
    + simpl. apply IH. lia.
Qed.

Lemma outcomeStreams_response o :
  responseStreams (outcomeResponse o) = outcomeStreams o.
Proof. now destruct o. Qed.

Lemma storeByPosition_targets options (ts : list LokiQuery) store :
  storeByPosition
    (map (fun t => outcomeResponse (datasourceRequest (requestFor options t))) ts)
    (map (fun t => prepareQueryTarget t options) ts) store =
  fold_left
    (fun st target => tagAll (JStr (targetRegexp target)) (targetStreams options target) st)
    ts store.
Proof.
  revert store. induction ts as [|t ts IH]; intros store; simpl; [reflexivity|].
  now rewrite IH, outcomeStreams_response.
Qed.

Lemma flat_map_responses options (ts : list LokiQuery) :
  flat_map responseStreams
    (map (fun t => outcomeResponse (datasourceRequest (requestFor options t))) ts) =
  flat_map (targetStreams options) ts.
Proof.
  induction ts as [|t ts IH]; simpl; [reflexivity|].
  now rewrite IH, outcomeStreams_response.
Qed.

Lemma query_calls store options :
  calls (snd (query store options)) =
  map (fun target => DatasourceRequest (requestFor options target))
    (filter active (targets options)).
Proof.
  unfold query. set (ts := filter active (targets options)).
  destruct (Nat.eqb _ 0) eqn:E.
  - destruct ts; [reflexivity | discriminate].
  - clear E. unfold promise_then_st.
    match goal with |- context [promise_all ?o ?ps] => set (all := promise_all o ps) end.
    assert (Hcalls : calls all =
                     map (fun target => DatasourceRequest (requestFor options target)) ts).
    { unfold all, promise_all, calls. cbn [fst]. rewrite !map_map.
      clear all. induction ts as [|t ts IH]; [reflexivity|].
      cbn [map List.concat]. rewrite IH. reflexivity. }
    destruct (settled all); cbn [snd]; exact Hcalls.
Qed.

Lemma query_settled store options first :
  filter active (targets options) <> [] ->
  nth_error (targets options) 0 = Some first ->
  allResolved options ->
  fst (query store options) = taggedStore store options
  /\ settled (snd (query store options)) =
     Resolved
       {| data :=
            if is_time_series (format first) then
              map SeriesDatum
                (makeSeriesForLogs
                   (rows (mergeStreamsToLogs
                            (map (taggedStore store options) (combinedStreams options))
                            (maxLines this)))
                   (intervalMs options))
            else map StreamDatum (combinedStreams options) |}.
Proof.
  intros Hne Hfirst Hall. unfold query, combinedStreams, taggedStore.
  unfold allResolved in Hall.
  set (ts := filter active (targets options)) in *.
  destruct ts as [|t0 ts0] eqn:Ets; [congruence|]. rewrite <- Ets in *.
  assert (Hlen : Nat.eqb (List.length (map (fun target => prepareQueryTarget target options) ts)) 0 = false).
  { rewrite Ets. reflexivity. }
  rewrite Hlen. clear Hlen Hne.
  unfold promise_then_st.
  set (vals := map (fun t => outcomeResponse (datasourceRequest (requestFor options t))) ts).
  rewrite (promise_all_resolved _ _ vals).
  2:{ unfold vals. rewrite !map_map. apply map_ext_in. intros t Ht.
      rewrite request_query_target. unfold settled. cbn [snd].
      destruct (Hall t Ht) as [res ->]. reflexivity. }
  rewrite (collectStreams_by_position vals _).
  - simpl skipn. rewrite Hfirst. unfold vals.
    rewrite storeByPosition_targets, flat_map_responses. cbn [app].
    now destruct (is_time_series (format first)).
  - unfold vals. now rewrite !length_map.
  - reflexivity.
Qed.

Lemma combinedStreams_no_target options :
  filter active (targets options) = [] -> combinedStreams options = [].
Proof. unfold combinedStreams. now intros ->. Qed.

Lemma query_no_target store options :
  filter active (targets options) = [] ->
  query store options = (store, ([], Resolved {| data := [] |})).
Proof. unfold query. now intros ->. Qed.

Lemma queryTargets_sameButFormat options options' (ts ts' : list LokiQuery) :
  range options = range options' -> streaming options = streaming options' ->
  Forall2 sameButFormat ts ts' ->
  map (fun target => prepareQueryTarget target options) (filter active ts) =
  map (fun target => prepareQueryTarget target options') (filter active ts').
Proof.
  intros Hr Hs. induction 1 as [|t t' ts ts' (_ & He & Hh) _ IH]; [reflexivity|].
  assert (Ha : active t = active t') by (unfold active; now rewrite He, Hh).
  cbn [filter]. rewrite Ha. destruct (active t'); [|exact IH].
  cbn [map]. rewrite IH. f_equal.
  unfold prepareQueryTarget, is_streaming. now rewrite He, Hr, Hs.
Qed.

Lemma query_ext store options options' :
  map (fun target => prepareQueryTarget target options)
    (filter active (targets options)) =
  map (fun target => prepareQueryTarget target options')
    (filter active (targets options')) ->
  nth_error (targets options) 0 = nth_error (targets options') 0 ->
  intervalMs options = intervalMs options' ->
  query store options = query store options'.
Proof. unfold query. now intros -> -> ->. Qed.

Lemma query_sameButFormat store options first others others' :
  Forall2 sameButFormat others others' ->
  query store (withTargets options (first :: others')) =
  query store (withTargets options (first :: others)).
Proof.
  intros H. apply query_ext; try reflexivity.
  apply queryTargets_sameButFormat; try reflexivity.
  constructor; [now repeat split|].
  clear -H. induction H as [|t t' ts ts' (? & ? & ?) _ IH]; constructor; auto.
  now repeat split.
Qed.

(** C2. In a batch call whose requests all succeed, the shape of the
    result is decided by the format of the first target alone: when it is
    [time_series], the combined streams are merged and the derived series
    are returned; for any other value the combined streams are returned as
    they are. The formats of the other targets play no part. (When no
    target is active there is nothing to merge and the result is the empty
    list, which is the derived series as long as the utility derives no
    series from no rows.) *)
Theorem query_shape_by_first_format store options first others :
  targets options = first :: others ->
  allResolved options ->
  (format first = Some "time_series" ->
   filter active (targets options) <> []
   \/ makeSeriesForLogs (rows (mergeStreamsToLogs [] (maxLines this)))
        (intervalMs options) = [] ->
   settled (snd (query store options)) =
   Resolved
     {| data :=
          map SeriesDatum
            (makeSeriesForLogs
               (rows (mergeStreamsToLogs
                        (map (fst (query store options)) (combinedStreams options))
                        (maxLines this)))
               (intervalMs options)) |})
  /\ (format first <> Some "time_series" ->
      settled (snd (query store options)) =
      Resolved {| data := map StreamDatum (combinedStreams options) |})
  /\ (forall others', Forall2 sameButFormat others others' ->
      query store (withTargets options (first :: others')) =
      query store (withTargets options (first :: others))).
Proof.
  intros Hts Hall.
  assert (Hfirst : nth_error (targets options) 0 = Some first) by now rewrite Hts.
  split; [|split].
  - intros Hf Hcase.
    destruct (filter active (targets options)) as [|t ts] eqn:Hact.
    + destruct Hcase as [Hne | Hempty]; [congruence|].
      rewrite (combinedStreams_no_target _ Hact). cbn [map]. rewrite Hempty.
      now rewrite (query_no_target _ _ Hact).
    + destruct (query_settled store options first) as [Hst Hres]; auto.
      * rewrite Hact. discriminate.
      * rewrite Hres, Hst. now rewrite Hf.
  - intros Hf.
    destruct (filter active (targets options)) as [|t ts] eqn:Hact.
    + rewrite (combinedStreams_no_target _ Hact).
      now rewrite (query_no_target _ _ Hact).
    + destruct (query_settled store options first) as [Hst Hres]; auto.
      * rewrite Hact. discriminate.
      * rewrite Hres.
        destruct (format first) as [f|]; [|reflexivity].
        simpl. destruct (String.eqb_spec f "time_series"); [congruence | reflexivity].
  - intros others' H. now apply query_sameButFormat.
Qed.

Lemma active_iff target :
  active target = true <-> expr target <> "" /\ hide target <> Some true.
Proof.
  unfold active, truthy_string.
  rewrite andb_true_iff, !negb_true_iff, String.eqb_neq.
  destruct (hide target) as [[|]|]; intuition congruence.
Qed.

Lemma stream_calls_concat (l : list JsObject) :
  List.concat (map fst (map (fun target => _stream "/api/prom/tail" (Some target)) l)) =
  map (fun _ => BackendGet lookupUrl) l.
Proof.
  induction l as [|x l IH]; [reflexivity|].
  cbn [map List.concat]. now rewrite IH.
Qed.

Lemma stream_unfold options :
  stream options =
  match filter active (targets options) with
  | [] => ([], ObsFromEmpty)
  | ts => (map (fun _ => BackendGet lookupUrl) ts,
           ObsCombineLatest (map (socketFor options) ts))
  end.
Proof.
  unfold stream. set (ts := filter active (targets options)).
  destruct (Nat.eqb _ 0) eqn:E.
  - destruct ts; [reflexivity | discriminate].
  - rewrite stream_calls_concat, !map_map.
    destruct ts; [discriminate | reflexivity].
Qed.

(** C3. Both [query] and [stream] keep exactly the targets whose [expr]
    is not empty and whose [hide] flag is not set, and build parameters
    and issue calls for those alone, one per kept target and in their
    order. When every target is excluded, [query] resolves with
    [{data: []}] and [stream] is the empty observable, and neither makes
    any network call. *)
Theorem inactive_targets_excluded store options :
  (forall target,
      In target (filter active (targets options)) <->
      In target (targets options) /\ expr target <> "" /\ hide target <> Some true)
  /\ calls (snd (query store options)) =
     map (fun target => DatasourceRequest (requestFor options target))
       (filter active (targets options))
  /\ fst (stream options) =
     map (fun _ => BackendGet lookupUrl) (filter active (targets options))
  /\ (filter active (targets options) <> [] ->
      snd (stream options) =
      ObsCombineLatest (map (socketFor options) (filter active (targets options))))
  /\ ((forall target, In target (targets options) ->
                      expr target = "" \/ hide target = Some true) ->
      query store options = (store, ([], Resolved {| data := [] |}))
      /\ stream options = ([], ObsFromEmpty)).
Proof.
  split; [|split; [|split; [|split]]].
  - intros target. rewrite filter_In, active_iff. reflexivity.
  - apply query_calls.
  - rewrite stream_unfold. now destruct (filter active (targets options)).
  - rewrite stream_unfold. now destruct (filter active (targets options)).
  - intros Hall.
    assert (Hnone : filter active (targets options) = []).
    { destruct (filter active (targets options)) as [|t ts] eqn:E; [reflexivity|].
      assert (Hin : In t (filter active (targets options))) by (rewrite E; now left).
      apply filter_In in Hin as [Hin Hact]. apply active_iff in Hact.
      destruct (Hall t Hin); tauto. }
    split; [now apply query_no_target|].
    rewrite stream_unfold. now rewrite Hnone.
Qed.

(** C4. When the request of any one active target fails, the whole batch
    call rejects, with the rejection of one of its requests: the result
    carries no data, whatever the other requests returned, and no stream
    object has been touched. *)
Theorem query_rejects_when_a_request_fails store options target e :
  In target (targets options) ->
  active target = true ->
  datasourceRequest (requestFor options target) = Rejected e ->
  exists e',
    settled (snd (query store options)) = Rejected e'
    /\ fst (query store options) = store
    /\ exists target',
         In target' (filter active (targets options))
         /\ datasourceRequest (requestFor options target') = Rejected e'.
Proof.
  intros Hin Hact Hrej.
  assert (Hf : In target (filter active (targets options))) by now apply filter_In.
  unfold query. set (ts := filter active (targets options)) in *.
  destruct (Nat.eqb _ 0) eqn:E.
  { destruct ts; [destruct Hf | discriminate]. }
  clear E. unfold promise_then_st.
  match goal with |- context [promise_all ?o ?ps] =>
    destruct (promise_all_rejected o ps e) as (e' & He' & Hin') end.
  - rewrite !map_map. apply in_map_iff. exists target. split; [|exact Hf].
    rewrite request_query_target. exact Hrej.
  - rewrite He'. exists e'. split; [reflexivity|]. split; [reflexivity|].
    rewrite !map_map in Hin'. apply in_map_iff in Hin' as (t' & Ht' & Hin').
    exists t'. split; [exact Hin'|].
    now rewrite request_query_target in Ht'.
Qed.

(** *** Doubles *)

Local Open Scope Z_scope.

Lemma ulp_pos a : 0 < ulp a.
Proof using. unfold ulp. apply Z.pow_pos_nonneg; lia. Qed.

Lemma rne_cases u a :
  0 < u ->
  (round_nearest_even u a = a / u * u \/ round_nearest_even u a = (a / u + 1) * u).
Proof using.
  intros Hu. unfold round_nearest_even.
  destruct (2 * (a mod u) <? u); [now left|].
  destruct (u <? 2 * (a mod u)); [now right|].
  destruct (Z.even (a / u)); [now left | now right].
Qed.

Lemma rne_near u a : 0 < u -> 2 * Z.abs (round_nearest_even u a - a) <= u.
Proof using.
  intros Hu. unfold round_nearest_even.
  pose proof (Z.div_mod a u ltac:(lia)) as E.
  pose proof (Z.mod_pos_bound a u Hu) as B.
  destruct (Z.ltb_spec (2 * (a mod u)) u); [lia|].
  destruct (Z.ltb_spec u (2 * (a mod u))); [lia|].
  destruct (Z.even (a / u)); lia.
Qed.

Lemma rne_multiple u k : 0 < u -> round_nearest_even u (k * u) = k * u.
Proof using.
  intros Hu. unfold round_nearest_even.
  rewrite Z.mod_mul, Z.div_mul by lia.
  destruct (Z.ltb_spec (2 * 0) u); [reflexivity | lia].
Qed.

Lemma rne_monotone u a b :
  0 < u -> a <= b -> round_nearest_even u a <= round_nearest_even u b.
Proof using.
  intros Hu Hab.
  pose proof (Z.div_mod a u ltac:(lia)) as Ea.
  pose proof (Z.div_mod b u ltac:(lia)) as Eb.
  pose proof (Z.mod_pos_bound a u Hu) as Ba.
  pose proof (Z.mod_pos_bound b u Hu) as Bb.
  pose proof (Z.div_le_mono a b u Hu Hab) as Hq.
  destruct (Z.eq_dec (a / u) (b / u)) as [Eq | Nq].
  - unfold round_nearest_even. rewrite <- Eq in *.
    destruct (Z.ltb_spec (2 * (a mod u)) u); destruct (Z.ltb_spec (2 * (b mod u)) u);
      destruct (Z.ltb_spec u (2 * (a mod u))); destruct (Z.ltb_spec u (2 * (b mod u)));
      destruct (Z.even (a / u)); nia.
  - assert (a / u + 1 <= b / u) by lia.
    destruct (rne_cases u a Hu) as [-> | ->]; destruct (rne_cases u b Hu) as [-> | ->]; nia.
Qed.

Lemma ulp_upper a : 0 <= a -> a < 2 ^ 53 * ulp a.
Proof using.
  intros Ha. unfold ulp. rewrite <- Z.pow_add_r by lia.
  destruct (Z.eq_dec a 0) as [-> | Hn]; [apply Z.pow_pos_nonneg; lia|].
  pose proof (Z.log2_spec a ltac:(lia)) as [_ Hlt].
  eapply Z.lt_le_trans; [exact Hlt|].
  apply Z.pow_le_mono_r; lia.
Qed.

Lemma ulp_lower a : 1 < ulp a -> 2 ^ 52 * ulp a <= a.
Proof using.
  unfold ulp.
  destruct (Z.max_spec 0 (Z.log2 a - 52)) as [[Hlt ->] | [Hle ->]]; intros H.
  - rewrite <- Z.pow_add_r by lia.
    replace (52 + (Z.log2 a - 52)) with (Z.log2 a) by lia.
    assert (0 < a) by (destruct a; try lia; simpl in Hlt; lia).
    apply (Z.log2_spec a); lia.
  - simpl in H. lia.
Qed.

Lemma ulp_small a : a < 2 ^ 53 -> ulp a = 1.
Proof using.
  intros H. unfold ulp.
  assert (Z.log2 a <= 52).
  { destruct (Z.le_gt_cases a 0) as [Hn | Hp].
    - rewrite Z.log2_nonpos by lia. lia.
    - apply Z.lt_succ_r. apply Z.log2_lt_pow2; [lia | exact H]. }
  rewrite Z.max_l by lia. reflexivity.
Qed.

Lemma ulp_divides a b : a <= b -> exists k, 0 < k /\ ulp b = k * ulp a /\ (ulp a < ulp b -> 2 <= k).
Proof using.
  intros Hab. unfold ulp.
  pose proof (Z.log2_le_mono a b Hab) as Hl.
  set (ea := Z.max 0 (Z.log2 a - 52)). set (eb := Z.max 0 (Z.log2 b - 52)).
  assert (0 <= ea <= eb) by (unfold ea, eb; lia).
  exists (2 ^ (eb - ea)). split; [apply Z.pow_pos_nonneg; lia|]. split.
  - rewrite <- Z.pow_add_r by lia. f_equal. lia.
  - intros Hlt. destruct (Z.eq_dec ea eb) as [E | N]; [rewrite E in Hlt; lia|].
    change 2 with (2 ^ 1) at 1. apply Z.pow_le_mono_r; lia.
Qed.

Lemma double_of_nonneg_exact a : 0 <= a <= 2 ^ 53 -> double_of_nonneg a = a.
Proof using.
  intros [H0 H1]. destruct (Z.eq_dec a (2 ^ 53)) as [-> | Hn]; [reflexivity|].
  unfold double_of_nonneg. rewrite ulp_small by lia.
  pose proof (rne_multiple 1 a ltac:(lia)) as H. now rewrite Z.mul_1_r in H.
Qed.

Lemma double_of_nonneg_near a : 2 * Z.abs (double_of_nonneg a - a) <= ulp a.
Proof using. apply rne_near, ulp_pos. Qed.

Lemma double_of_nonneg_monotone a b :
  0 <= a -> a <= b -> double_of_nonneg a <= double_of_nonneg b.
Proof using.
  intros Ha Hab. unfold double_of_nonneg.
  destruct (ulp_divides a b Hab) as (k & Hk & Ek & Hk2).
  pose proof (ulp_pos a) as Hua. pose proof (ulp_pos b) as Hub.
  destruct (Z.eq_dec (ulp a) (ulp b)) as [E | N].
  - rewrite <- E. now apply rne_monotone.
  - assert (Hlt : ulp a < ulp b) by nia.
    specialize (Hk2 Hlt).
    pose proof (ulp_upper a Ha) as Hup.
    pose proof (ulp_lower b ltac:(lia)) as Hlo.
    apply Z.le_trans with (2 ^ 52 * ulp b).
    + rewrite Ek at 1. rewrite Z.mul_assoc.
      rewrite <- (rne_multiple (ulp a) (2 ^ 52 * k) Hua).
      apply rne_monotone; [exact Hua|]. nia.
    + rewrite <- (rne_multiple (ulp b) (2 ^ 52) Hub) at 1.
      apply rne_monotone; assumption.
Qed.

Lemma double_of_nonneg_nonneg a : 0 <= a -> 0 <= double_of_nonneg a.
Proof using.
  intros Ha. change 0 with (double_of_nonneg 0) at 1.
  now apply double_of_nonneg_monotone.
Qed.

Lemma double_of_Z_nonneg m : 0 <= m -> double_of_Z m = double_of_nonneg m.
Proof using.
  intros H. unfold double_of_Z. rewrite Z.abs_eq by exact H.
  destruct (Z.eq_dec m 0) as [-> | Hn]; [reflexivity|].
  rewrite Z.sgn_pos by lia. lia.
Qed.

Lemma double_of_Z_neg m : m <= 0 -> double_of_Z m = - double_of_nonneg (- m).
Proof using.
  intros H. unfold double_of_Z. rewrite Z.abs_neq by exact H.
  destruct (Z.eq_dec m 0) as [-> | Hn]; [reflexivity|].
  rewrite Z.sgn_neg by lia. lia.
Qed.

Lemma double_of_Z_monotone a b : a <= b -> double_of_Z a <= double_of_Z b.
Proof using.
  intros Hab.
  destruct (Z.le_gt_cases 0 a) as [Ha | Ha].
  - rewrite !double_of_Z_nonneg by lia. now apply double_of_nonneg_monotone.
  - destruct (Z.le_gt_cases 0 b) as [Hb | Hb].
    + rewrite (double_of_Z_neg a), (double_of_Z_nonneg b) by lia.
      pose proof (double_of_nonneg_nonneg (- a) ltac:(lia)).
      pose proof (double_of_nonneg_nonneg b Hb). lia.
    + rewrite !double_of_Z_neg by lia.
      pose proof (double_of_nonneg_monotone (- b) (- a) ltac:(lia) ltac:(lia)). lia.
Qed.

Lemma double_of_Z_exact m : Z.abs m <= 2 ^ 53 -> double_of_Z m = m.
Proof using.
  intros H. destruct (Z.le_gt_cases 0 m).
  - rewrite double_of_Z_nonneg by lia. apply double_of_nonneg_exact. lia.
  - rewrite double_of_Z_neg by lia. rewrite double_of_nonneg_exact; lia.
Qed.

Lemma double_of_nonneg_deviation a :
  0 <= a -> 2 ^ 53 * Z.abs (double_of_nonneg a - a) <= a.
Proof using.
  intros Ha. pose proof (double_of_nonneg_near a) as Hn.
  destruct (Z.le_gt_cases (ulp a) 1) as [H1 | H1].
  - destruct (Z.le_gt_cases a (2 ^ 53)) as [Hs | Hl].
    + rewrite double_of_nonneg_exact by lia. rewrite Z.sub_diag. simpl. lia.
    + pose proof (ulp_upper a Ha). pose proof (ulp_pos a). nia.
  - pose proof (ulp_lower a H1).
    change (2 ^ 53) with (2 ^ 52 * 2). nia.
Qed.

Lemma double_of_Z_deviation m : 2 ^ 53 * Z.abs (double_of_Z m - m) <= Z.abs m.
Proof using.
  destruct (Z.le_gt_cases 0 m).
  - rewrite double_of_Z_nonneg by lia. rewrite (Z.abs_eq m) by lia.
    now apply double_of_nonneg_deviation.
  - rewrite double_of_Z_neg by lia. rewrite (Z.abs_neq m) by lia.
    pose proof (double_of_nonneg_deviation (- m) ltac:(lia)).
    replace (- double_of_nonneg (- m) - m) with (- (double_of_nonneg (- m) - - m)) by lia.
    now rewrite Z.abs_opp.
Qed.

Lemma ulp_bound a k : 0 <= k -> a < 2 ^ (52 + k) -> ulp a < 2 * 2 ^ k.
Proof using.
  intros Hk Ha. pose proof (Z.pow_pos_nonneg 2 k ltac:(lia) Hk).
  destruct (Z.le_gt_cases (ulp a) 1) as [H1 | H1]; [lia|].
  pose proof (ulp_lower a H1). rewrite Z.pow_add_r in Ha by lia. nia.
Qed.

Lemma same_double_close m c :
  0 <= m < 2 ^ 70 -> 0 <= c -> double_of_nonneg c = double_of_nonneg m ->
  Z.abs (c - m) < 1000000.
Proof using.
  intros [Hm0 Hm] Hc E.
  assert (Hc' : c < 2 ^ 71).
  { destruct (Z.le_gt_cases (2 ^ 71) c) as [Hge | Hlt]; [exfalso | exact Hlt].
    pose proof (double_of_nonneg_monotone (2 ^ 71) c ltac:(lia) Hge) as H1.
    pose proof (double_of_nonneg_monotone m (2 ^ 70) Hm0 ltac:(lia)) as H2.
    change (double_of_nonneg (2 ^ 71)) with (2 ^ 71) in H1.
    change (double_of_nonneg (2 ^ 70)) with (2 ^ 70) in H2. lia. }
  pose proof (ulp_bound m 18 ltac:(lia) Hm) as Hum.
  pose proof (ulp_bound c 19 ltac:(lia) Hc') as Huc.
  pose proof (double_of_nonneg_near m). pose proof (double_of_nonneg_near c).
  change (2 ^ 18) with 262144 in Hum. change (2 ^ 19) with 524288 in Huc. lia.
Qed.

Lemma decimal_at_sound p a c :
  decimal_at p a = Some c ->
  double_of_nonneg c = a /\ (c = a / p * p \/ c = a / p * p + p).
Proof using.
  unfold decimal_at.
  destruct (Z.eqb_spec (double_of_nonneg (a / p * p)) a) as [Elo | Nlo];
    destruct (Z.eqb_spec (double_of_nonneg (a / p * p + p)) a) as [Ehi | Nhi];
    try discriminate.
  - destruct (_ <? _); [|destruct (_ <? _); [|destruct (Z.even _)]];
      intros [= <-]; auto.
  - intros [= <-]. auto.
  - intros [= <-]. auto.
Qed.

Lemma decimal_at_complete p a c :
  double_of_nonneg c = a -> (c = a / p * p \/ c = a / p * p + p) ->
  decimal_at p a <> None.
Proof using.
  intros E Hc. unfold decimal_at.
  destruct (Z.eqb_spec (double_of_nonneg (a / p * p)) a) as [Elo | Nlo];
    destruct (Z.eqb_spec (double_of_nonneg (a / p * p + p)) a) as [Ehi | Nhi];
    try discriminate.
  - destruct (_ <? _); [|destruct (_ <? _); [|destruct (Z.even _)]]; discriminate.
  - destruct Hc as [-> | ->]; contradiction.
Qed.

(** Multiples of [10^6] below [10^21] are printed in full. *)
Lemma shortest_from_scaled (n : Z) (k : nat) :
  0 <= n -> n * 1000000 < 10 ^ 21 ->
  shortest_from (6 + k) (double_of_nonneg (n * 1000000)) = n * 1000000.
Proof using.
  intros Hn Hlt. set (m := n * 1000000) in *. set (a := double_of_nonneg m).
  assert (Hm : 0 <= m < 2 ^ 70).
  { unfold m. change (10 ^ 21) with 1000000000000000000000 in Hlt.
    change (2 ^ 70) with 1180591620717411303424. lia. }
  assert (Hsome : forall j c, decimal_at (10 ^ Z.of_nat (6 + j)) a = Some c -> c = m).
  { intros j c Hd. apply decimal_at_sound in Hd as [E Hc].
    assert (Hp : exists t, 0 < t /\ 10 ^ Z.of_nat (6 + j) = t * 1000000).
    { exists (10 ^ Z.of_nat j). split; [apply Z.pow_pos_nonneg; lia|].
      rewrite Nat2Z.inj_add, Z.pow_add_r by lia. change (10 ^ Z.of_nat 6) with 1000000. lia. }
    destruct Hp as (t & Ht & Ep). rewrite Ep in Hc.
    assert (Ha : 0 <= a) by (apply double_of_nonneg_nonneg; lia).
    assert (Hq : 0 <= a / (t * 1000000)) by (apply Z.div_pos; lia).
    assert (Hc0 : 0 <= c) by (destruct Hc as [-> | ->]; nia).
    pose proof (same_double_close m c Hm Hc0 E) as Hclose.
    assert (Hmul : exists s, c - m = s * 1000000).
    { destruct Hc as [-> | ->]; unfold m.
      - exists (a / (t * 1000000) * t - n). lia.
      - exists (a / (t * 1000000) * t + t - n). lia. }
    destruct Hmul as [s Hs]. rewrite Hs in Hclose.
    assert (s = 0) by lia. lia. }
  induction k as [|k IH].
  - cbn [shortest_from Nat.add].
    destruct (decimal_at (10 ^ Z.of_nat 6) a) as [c|] eqn:Hd.
    + exact (Hsome 0%nat c Hd).
    + exfalso. revert Hd. apply (decimal_at_complete _ a m eq_refl).
      change (10 ^ Z.of_nat 6) with 1000000.
      assert (Ha : 0 <= a) by (apply double_of_nonneg_nonneg; lia).
      pose proof (same_double_close m a Hm Ha) as Hclose.
      assert (Z.abs (a - m) < 1000000).
      { pose proof (ulp_bound m 18 ltac:(lia) (proj2 Hm)) as Hum.
        pose proof (double_of_nonneg_near m). fold a in H.
        change (2 ^ 18) with 262144 in Hum. lia. }
      pose proof (Z.div_mod a 1000000 ltac:(lia)) as Ed.
      pose proof (Z.mod_pos_bound a 1000000 ltac:(lia)) as Bd.
      unfold m in *. lia.
  - change (6 + S k)%nat with (S (6 + k)). cbn [shortest_from].
    destruct (decimal_at (10 ^ Z.of_nat (S (6 + k))) a) as [c|] eqn:Hd.
    + exact (Hsome (S k) c Hd).
    + exact IH.
Qed.

Lemma shortest_decimal_scaled (n : Z) :
  Z.abs n < 10 ^ 15 ->
  shortest_decimal (double_of_Z (n * 1000000)) = n * 1000000.
Proof using.
  intros Hn. change (10 ^ 15) with 1000000000000000 in Hn.
  assert (Hpos : forall k, 0 < k -> k < 1000000000000000 ->
            shortest_decimal (double_of_nonneg (k * 1000000)) = k * 1000000
            /\ 0 < double_of_nonneg (k * 1000000)).
  { intros k Hk0 Hk.
    pose proof (double_of_nonneg_monotone 1 (k * 1000000) ltac:(lia) ltac:(lia)) as H1.
    change (double_of_nonneg 1) with 1 in H1.
    split; [|lia]. unfold shortest_decimal.
    rewrite Z.sgn_pos, Z.abs_eq by lia.
    change 21%nat with (6 + 15)%nat. rewrite shortest_from_scaled; [lia | lia |].
    change (10 ^ 21) with 1000000000000000000000. lia. }
  destruct (Z.lt_trichotomy n 0) as [Hneg | [-> | Hp]].
  - rewrite double_of_Z_neg by lia.
    destruct (Hpos (- n) ltac:(lia) ltac:(lia)) as [Hs Ha].
    replace (- (n * 1000000)) with (- n * 1000000) by lia.
    unfold shortest_decimal in *.
    rewrite Z.sgn_pos, Z.abs_eq in Hs by lia.
    rewrite Z.sgn_neg, Z.abs_neq by lia. rewrite Z.opp_involutive. lia.
  - reflexivity.
  - rewrite double_of_Z_nonneg by lia. apply Hpos; lia.
Qed.

Local Close Scope Z_scope.

(** *** Time bounds *)

(** The ceiling changes nothing: the product of whole doubles is whole. *)
Lemma getTime_moment (X : Moment) roundUp :
  getTime (DateMoment X) roundUp = double_of_Z (X * 1000000).
Proof. unfold getTime, Math_ceil, double_mul. apply Qceiling_Z. Qed.

Lemma Qceiling_scaled (X : Z) : Qceiling (inject_Z X * 1000000)%Q = (X * 1000000)%Z.
Proof using.
  assert (E : (inject_Z X * 1000000 == inject_Z (X * 1000000))%Q)
    by (rewrite inject_Z_mult; reflexivity).
  rewrite E. apply Qceiling_Z.
Qed.

(** C5. For a time value [X], [getTime] returns the double nearest to
    [X * 10^6], whatever the [roundUp] flag (a string is first parsed,
    with that flag); the ceiling changes nothing, the product of whole
    doubles being whole.  That is [ceil(X * 10^6)] whenever
    [|X * 10^6| <= 2^53]; beyond, the number may be off, but the digits
    written into a request are those of [ceil(X * 10^6)] in full for
    [|X| < 10^15].  A batch query converts its start with
    [getTime(from, false)] and its end with [getTime(to, true)], so the
    same value gives the same timestamp as either bound. *)
Theorem getTime_nearest_double_both_bounds :
  (forall (X : Moment) roundUp,
      getTime (DateMoment X) roundUp = double_of_Z (X * 1000000)
      /\ ((Z.abs (X * 1000000) <= 2 ^ 53)%Z ->
          getTime (DateMoment X) roundUp = Qceiling (inject_Z X * 1000000)%Q)
      /\ ((Z.abs X < 10 ^ 15)%Z ->
          js_toString (JNum (getTime (DateMoment X) roundUp))
          = string_of_Z (Qceiling (inject_Z X * 1000000)%Q)))
  /\ (forall s roundUp,
         getTime (DateString s) roundUp
         = getTime (DateMoment (dateMath_parse s roundUp)) roundUp)
  /\ (forall target options,
         is_streaming options = false ->
         obj_get "start" (prepareQueryTarget target options)
         = JNum (getTime (from (range options)) false)
         /\ obj_get "end" (prepareQueryTarget target options)
            = JNum (getTime (to (range options)) true))
  /\ (forall target options (X : Moment),
         is_streaming options = false ->
         from (range options) = DateMoment X ->
         to (range options) = DateMoment X ->
         obj_get "start" (prepareQueryTarget target options)
         = JNum (double_of_Z (X * 1000000))
         /\ obj_get "end" (prepareQueryTarget target options)
            = JNum (double_of_Z (X * 1000000))).
Proof.
  split; [|split; [|split]].
  - intros X roundUp. rewrite Qceiling_scaled, getTime_moment.
    split; [reflexivity|]. split.
    + apply double_of_Z_exact.
    + intros HX. cbn [js_toString]. now rewrite shortest_decimal_scaled.
  - reflexivity.
  - intros target options Hs. unfold prepareQueryTarget. rewrite Hs. split; reflexivity.
  - intros target options X Hs Hfrom Hto. rewrite <- (getTime_moment X false) at 1.
    rewrite <- (getTime_moment X true).
    unfold prepareQueryTarget. rewrite Hs, Hfrom, Hto. split; reflexivity.
Qed.

(** *** Query editing *)

Lemma expr_or_empty (query : LokiQuery) :
  (if truthy_string (expr query) then expr query else "") = expr query.
Proof using.
  unfold truthy_string. now destruct (String.eqb_spec (expr query) "").
Qed.

Lemma heap_alloc_keeps (h : Heap) (q : LokiQuery) l0 q0 :
  nth_error h l0 = Some q0 -> nth_error (h ++ [q]) l0 = Some q0.
Proof using.
  intros H0. rewrite nth_error_app1; [exact H0|].
  apply nth_error_Some. now rewrite H0.
Qed.

Lemma heap_alloc_new (h : Heap) (q : LokiQuery) :
  nth_error (h ++ [q]) (List.length h) = Some q.
Proof using. rewrite nth_error_app2 by lia. now rewrite Nat.sub_diag. Qed.

Lemma list_set_other {A} (l : list A) i j a :
  i <> j -> nth_error (list_set l i a) j = nth_error l j.
Proof using.
  revert i j. induction l as [|x l IH]; intros [|i] [|j] Hne; cbn; try reflexivity.
  - congruence.
  - apply IH. congruence.
Qed.

(** What a run of [modifyQuery] on a reference in the heap does. *)
Lemma modifyQuery_run (h : Heap) (l : nat) (q : LokiQuery) action :
  nth_error h l = Some q ->
  modifyQuery l action h =
  Some (List.length h,
        h ++ [ {| refId := refId q;
                  expr := formatQuery
                            (if (action_type action =? "ADD_FILTER")%string
                             then addLabelToSelector (pq_query (parseQuery (expr q)))
                                    (action_key action) (action_value action)
                             else pq_query (parseQuery (expr q)))
                            (pq_regexp (parseQuery (expr q)));
                  format := format q; hide := hide q |} ]).
Proof using.
  intros Hq. unfold modifyQuery, heap_bind, heap_read, heap_alloc.
  rewrite Hq. cbn beta iota. rewrite Hq. now rewrite expr_or_empty.
Qed.



(** C10. [modifyQuery] allocates the object it returns and writes to no
    existing object: the heap grows by that one object, every reference
    that was in it, the one of the argument among them, holds afterwards
    what it held before, the reference returned was free, and the object
    there has the fields of the argument except for [expr].  A later
    write to the returned object does not reach the argument. *)
Theorem modifyQuery_fresh_object (h : Heap) (l : nat) (q : LokiQuery) action :
  nth_error h l = Some q ->
  exists h' l' q',
    modifyQuery l action h = Some (l', h')
    /\ nth_error h l' = None
    /\ List.length h' = S (List.length h)
    /\ (forall l0 q0, nth_error h l0 = Some q0 -> nth_error h' l0 = Some q0)
    /\ nth_error h' l = Some q
    /\ nth_error h' l' = Some q'
    /\ refId q' = refId q /\ format q' = format q /\ hide q' = hide q
    /\ (forall q'', exists h'',
           heap_write l' q'' h' = Some (tt, h'') /\ nth_error h'' l = Some q).
Proof using.
  intros Hq. rewrite (modifyQuery_run h l q action Hq).
  eexists _, _, _. split; [reflexivity|].
  match goal with |- context [(h ++ [?x])%list] => set (q' := x) end.
  assert (Hl : l < List.length h) by (apply nth_error_Some; now rewrite Hq).
  split; [apply nth_error_None; lia|].
  split; [rewrite length_app; cbn; lia|].
  split; [intros l0 q0; apply heap_alloc_keeps|].
  split; [now apply heap_alloc_keeps|].
  split; [apply heap_alloc_new|].
  split; [reflexivity|]. split; [reflexivity|]. split; [reflexivity|].
  intros q''. unfold heap_write. rewrite heap_alloc_new. eexists. split; [reflexivity|].
  rewrite list_set_other by lia. now apply heap_alloc_keeps.
Qed.

(** *** Tagging of streams *)

Lemma tagAll_notin regexp streams store l :
  ~ In l streams -> tagAll regexp streams store l = store l.
Proof.
  revert store. induction streams as [|x xs IH]; intros store H; [reflexivity|].
  unfold tagAll in *. simpl. rewrite IH by (intro; apply H; now right).
  unfold store_set. destruct (Nat.eqb_spec l x); [|reflexivity].
  subst. exfalso. apply H. now left.
Qed.

Lemma tagAll_in regexp streams store l :
  In l streams -> tagAll regexp streams store l = set_search regexp (store l).
Proof.
  revert store. induction streams as [|x xs IH]; intros store H; [destruct H|].
  change (tagAll regexp (x :: xs) store)
    with (tagAll regexp xs (store_set store x (set_search regexp (store x)))).
  destruct (in_dec Nat.eq_dec l xs) as [Hin | Hnin].
  - rewrite (IH _ Hin). unfold store_set.
    destruct (Nat.eqb_spec l x); [now subst | reflexivity].
  - destruct H as [-> | H]; [|contradiction].
    rewrite tagAll_notin by assumption. unfold store_set. now rewrite Nat.eqb_refl.
Qed.




(** *** Health check *)

Lemma string_app_assoc (a b c : string) :
  ((a ++ b) ++ c = a ++ b ++ c)%string.
Proof. induction a as [|x a IH]; simpl; [reflexivity | now rewrite IH]. Qed.

Lemma connectionError_message err :
  message (connectionError err) = assembledMessage err.
Proof.
  unfold connectionError, assembledMessage, statusTextPart, statusCodePart, bodyPart.
  cbn [message].
  destruct (err_statusText err) as [t|]; [destruct (truthy_string t)|];
    (destruct (err_status err) as [c|]; [destruct (Z.eqb c 0)|]);
    (destruct (err_data err) as [[[m|]|raw]|];
     [destruct (truthy_string m) | | destruct (truthy_string raw) |]);
    cbn [app String.concat]; rewrite ?string_app_assoc; reflexivity.
Qed.

Lemma testDatasource_calls : calls testDatasource = [DatasourceRequest labelRequest].
Proof. reflexivity. Qed.

(** C9. When the transport rejects the health check, [testDatasource]
    resolves with status [error] and a message made of what the rejection
    carries: after ["Loki: "], the status text (or a fixed text when there
    is none), then the status code, then the message of a structured body
    or else the raw body, each present part separated from the previous by
    [". "]. A rejection with status 500 and status text [Internal Error]
    gives a message that contains both. *)
Theorem testDatasource_failure_message err :
  datasourceRequest labelRequest = Rejected err ->
  settled testDatasource =
  Resolved {| status := "error"; message := assembledMessage err |}
  /\ (err_status err = Some 500%Z ->
      err_statusText err = Some "Internal Error" ->
      contains "Internal Error" (assembledMessage err)
      /\ contains "500" (assembledMessage err)).
Proof.
  intros Hrej. split.
  - unfold testDatasource, promise_catch, promise_then, settled, _request.
    cbn [snd fst calls]. change (obj_set _ _ _) with labelRequest.
    rewrite Hrej. rewrite <- connectionError_message. reflexivity.
  - intros Hcode Htext.
    unfold assembledMessage, statusTextPart, statusCodePart.
    rewrite Hcode, Htext. cbn [truthy_string String.eqb Ascii.eqb Bool.eqb negb Z.eqb].
    change (string_of_Z 500) with "500".
    split.
    + exists "Loki: ".
      exists (String.concat ". " ("" :: "500" :: bodyPart err)).
      cbn [app]. destruct (bodyPart err); reflexivity.
    + exists "Loki: Internal Error. ".
      exists (String.concat ". " ("" :: bodyPart err)).
      cbn [app]. destruct (bodyPart err); reflexivity.
Qed.

(** C1 (as the code has it). When the health check succeeds but the
    response carries no label value, [testDatasource] resolves with status
    [error], the status a transport failure gets too, and with a message
    of its own that says that the data source is connected but no labels
    were received. *)
Theorem testDatasource_no_labels res :
  datasourceRequest labelRequest = Resolved res ->
  labelValues res = [] ->
  settled testDatasource =
  Resolved {| status := "error"; message := noLabelsMessage |}
  /\ contains "no labels received" noLabelsMessage
  /\ forall err, status (connectionError err) = "error".
Proof.
  intros Hres Hvals. split; [|split].
  - unfold testDatasource, promise_catch, promise_then, settled, _request.
    cbn [snd fst calls]. change (obj_set _ _ _) with labelRequest.
    rewrite Hres.
    assert (Hno : has_labels res = false).
    { unfold has_labels, labelValues in *.
      destruct (res_data res) as [d|]; [|reflexivity].
      destruct (rd_values d) as [values|]; [|reflexivity]. now subst values. }
    now rewrite Hno.
  - exists "Data source connected, but ".
    exists ". Verify that Loki and Promtail is configured properly.". reflexivity.
  - reflexivity.
Qed.

(** *** Parameter sets and time bounds *)

Lemma getTime_monotone (X Y : Moment) r1 r2 :
  (X <= Y)%Z -> (getTime (DateMoment X) r1 <= getTime (DateMoment Y) r2)%Z.
Proof.
  intros H. rewrite !getTime_moment. apply double_of_Z_monotone. lia.
Qed.

Lemma prepareQueryTarget_normal_form target options :
  prepareQueryTarget target options =
  [ ("direction", JStr "BACKWARD"); ("limit", JNum (maxLines this));
    ("regexp", JStr (targetRegexp target)); ("query", JStr (targetSelector target));
    ("start",
     JNum (if is_streaming options
           then getTime (DateMoment (moment_now - EXPLORE_POLLING_INTERVAL_MS)%Z) false
           else getTime (from (range options)) false));
    ("end",
     JNum (if is_streaming options
           then getTime (DateMoment moment_now) true
           else getTime (to (range options)) true)) ].
Proof. reflexivity. Qed.

Lemma string_app_inv_head (a b c : string) : (a ++ b = a ++ c)%string -> b = c.
Proof using.
  induction a as [|x a IH]; simpl; [intros H; exact H|]. intros [= H]. apply IH, H.
Qed.

(** X6. A range given by two moments with [from <= to] never gives a start
    after the end. *)
Theorem query_bounds_ordered target options (X Y : Moment) :
  is_streaming options = false ->
  from (range options) = DateMoment X ->
  to (range options) = DateMoment Y ->
  (X <= Y)%Z ->
  exists s e,
    obj_get "start" (prepareQueryTarget target options) = JNum s
    /\ obj_get "end" (prepareQueryTarget target options) = JNum e
    /\ (s <= e)%Z.
Proof.
  intros Hs Hf Ht Hle.
  exists (getTime (DateMoment X) false), (getTime (DateMoment Y) true).
  unfold prepareQueryTarget. rewrite Hs, Hf, Ht.
  repeat split. now apply getTime_monotone.
Qed.

(** X7. The number [getTime] returns for a time value [n] is not always
    [n] times [10^6], but it is never off by more than one part in
    [2^53]. *)
Theorem getTime_deviation (n : Moment) roundUp :
  (2 ^ 53 * Z.abs (getTime (DateMoment n) roundUp - n * 1000000)
   <= Z.abs (n * 1000000))%Z.
Proof. rewrite getTime_moment. apply double_of_Z_deviation. Qed.

(** X8. When streaming, the bounds do not depend on the range of the options:
    both are taken from one reading of the clock.  The start is not after
    the end when the polling interval is not negative, and the two
    timestamps, as their digits are written into the request, are exactly
    the polling interval times [10^6] apart, though the numbers themselves
    are rounded. *)
Theorem live_window target options :
  is_streaming options = true ->
  (forall r, prepareQueryTarget target (withRange options r)
             = prepareQueryTarget target options)
  /\ exists s e,
       obj_get "start" (prepareQueryTarget target options) = JNum s
       /\ obj_get "end" (prepareQueryTarget target options) = JNum e
       /\ ((0 <= EXPLORE_POLLING_INTERVAL_MS)%Z -> (s <= e)%Z)
       /\ ((Z.abs moment_now < 10 ^ 15)%Z ->
           (Z.abs (moment_now - EXPLORE_POLLING_INTERVAL_MS) < 10 ^ 15)%Z ->
           (shortest_decimal e - shortest_decimal s
            = EXPLORE_POLLING_INTERVAL_MS * 1000000)%Z).
Proof.
  intros Hs. split.
  - intros r. unfold prepareQueryTarget, is_streaming in *. cbn [streaming withRange].
    now rewrite Hs.
  - exists (getTime (DateMoment (moment_now - EXPLORE_POLLING_INTERVAL_MS)%Z) false),
      (getTime (DateMoment moment_now) true).
    unfold prepareQueryTarget. rewrite Hs.
    split; [reflexivity|]. split; [reflexivity|]. split.
    + intros Hi. apply getTime_monotone. lia.
    + intros Hnow Hstart. rewrite !getTime_moment, !shortest_decimal_scaled by assumption.
      lia.
Qed.

(** *** Request objects *)

Lemma obj_get_set_same k v o : obj_get k (obj_set k v o) = v.
Proof using.
  induction o as [|[k' v'] o IH]; simpl.
  - now rewrite String.eqb_refl.
  - destruct (String.eqb_spec k' k) as [-> | Hne]; simpl.
    + now rewrite String.eqb_refl.
    + apply String.eqb_neq in Hne. now rewrite Hne.
Qed.

Lemma obj_get_set_other k k' v o :
  k' <> k -> obj_get k' (obj_set k v o) = obj_get k' o.
Proof using.
  intros Hne. induction o as [|[k0 v0] o IH]; simpl.
  - apply not_eq_sym, String.eqb_neq in Hne. now rewrite Hne.
  - destruct (String.eqb_spec k0 k) as [-> | Hk]; simpl.
    + apply not_eq_sym, String.eqb_neq in Hne. now rewrite Hne.
    + now rewrite IH.
Qed.

Lemma obj_get_absent k o : ~ In k (map fst o) -> obj_get k o = JUndefined.
Proof using.
  induction o as [|[k0 v0] o IH]; simpl; [reflexivity|].
  intros H. destruct (String.eqb_spec k0 k) as [-> | Hk].
  - exfalso. apply H. left. reflexivity.
  - apply IH. intros Hin. apply H. right. exact Hin.
Qed.

Lemma obj_get_spread k acc src :
  NoDup (map fst src) ->
  obj_get k (obj_spread acc src) =
  if in_dec string_dec k (map fst src) then obj_get k src else obj_get k acc.
Proof using.
  unfold obj_spread. revert acc.
  induction src as [|[k0 v0] src IH]; intros acc Hnd; [reflexivity|].
  inversion Hnd as [|? ? Hfresh Hnd']; subst. cbn [fold_left fst snd].
  rewrite (IH _ Hnd'). cbn [map fst obj_get].
  destruct (String.eqb_spec k0 k) as [-> | Hk].
  - destruct (in_dec string_dec k (map fst src)) as [Hin | _]; [contradiction|].
    destruct (in_dec string_dec k (k :: map fst src)) as [_ | Hn];
      [apply obj_get_set_same | exfalso; apply Hn; now left].
  - destruct (in_dec string_dec k (map fst src)) as [Hin | Hnin];
      destruct (in_dec string_dec k (k0 :: map fst src)) as [Hin' | Hnin'].
    + reflexivity.
    + exfalso. apply Hnin'. now right.
    + destruct Hin' as [-> | Hin']; [congruence | contradiction].
    + apply obj_get_set_other. congruence.
Qed.

(** X4. [_request] makes exactly one transport call. Its request object has
    the computed URL under [url], also when the options carry a [url] of
    their own, and every other property of the options as it is; the data
    appear in the URL only. *)
Theorem request_object apiUrl data options :
  match options with Some o => NoDup (map fst o) | None => True end ->
  exists req,
    _request apiUrl data options = ([DatasourceRequest req], datasourceRequest req)
    /\ obj_get "url" req
       = JStr (instanceSettings_url this ++ apiUrl ++ "?"
               ++ match data with Some d => serializeParams d | None => "" end)%string
    /\ forall k, k <> "url" ->
         obj_get k req = match options with Some o => obj_get k o | None => JUndefined end.
Proof using datasourceRequest this.
  intros Hwf. eexists. split; [reflexivity|]. split.
  - apply obj_get_set_same.
  - intros k Hk. rewrite obj_get_set_other by exact Hk.
    destruct options as [o|]; [|reflexivity].
    rewrite (obj_get_spread k [] o Hwf).
    destruct (in_dec string_dec k (map fst o)) as [Hin | Hnin]; [reflexivity|].
    symmetry. apply obj_get_absent. exact Hnin.
Qed.

(** *** Label values *)

Lemma prefix_cons (a b : ascii) (s1 s2 : string) :
  String.prefix (String a s1) (String b s2)
  = if ascii_dec a b then String.prefix s1 s2 else false.
Proof using. reflexivity. Qed.

Lemma prefix_empty (s : string) : String.prefix "" s = true.
Proof using. now destruct s. Qed.

Lemma prefix_cons_false (c : ascii) (pre post : string) :
  String.prefix "v1" (String c (pre ++ "v")) = false ->
  String.prefix "v1" (String c (pre ++ "v1" ++ post)) = false.
Proof using.
  rewrite !prefix_cons. destruct (ascii_dec "v" c); [|reflexivity].
  destruct pre as [|d pre]; cbn [append]; rewrite !prefix_cons.
  - destruct (ascii_dec "1" "v") as [E|]; [discriminate E | reflexivity].
  - destruct (ascii_dec "1" d); [|reflexivity]. now rewrite !prefix_empty.
Qed.

Lemma replace_first_absent pat rep s :
  occurs pat s = false -> replace_first pat rep s = s.
Proof using.
  induction s as [|c s IH]; simpl; intros H; apply orb_false_iff in H as [Hp Hs].
  - now rewrite Hp.
  - rewrite Hp. now rewrite IH.
Qed.

Lemma replace_first_v1 (pre post : string) :
  occurs "v1" (pre ++ "v") = false ->
  replace_first "v1" "prom" (pre ++ "v1" ++ post) = (pre ++ "prom" ++ post)%string.
Proof using.
  induction pre as [|c pre IH]; intros H.
  { cbn [append replace_first]. rewrite !prefix_cons.
    destruct (ascii_dec "v" "v"); [|congruence].
    destruct (ascii_dec "1" "1"); [|congruence].
    now rewrite prefix_empty. }
  cbn [append occurs] in H. apply orb_false_iff in H as [Hp Hs].
  pose proof (prefix_cons_false c pre post Hp) as Hg.
  cbn [append replace_first] in *. rewrite Hg.
  exact (f_equal (String c) (IH Hs)).
Qed.

(** X15. [metadataRequest] asks for the path with its first [v1] replaced by
    [prom], later ones and paths without [v1] left as they are, and sends
    [silent=true] in the query string; the request object carries nothing
    but the URL. *)
Theorem metadataRequest_url :
  (forall url, occurs "v1" url = false ->
      calls (metadataRequest url) = [DatasourceRequest (metadataRequestFor url)])
  /\ (forall pre post, occurs "v1" (pre ++ "v") = false ->
         calls (metadataRequest (pre ++ "v1" ++ post))
         = [DatasourceRequest (metadataRequestFor (pre ++ "prom" ++ post))]).
Proof.
  split.
  - intros url H. unfold metadataRequest. rewrite (replace_first_absent _ _ _ H). reflexivity.
  - intros pre post H. unfold metadataRequest. rewrite (replace_first_v1 _ _ H). reflexivity.
Qed.

(** X16. [metadataRequest] resolves with the values of the response, with the
    empty list when the response body has none; it rejects with a
    [TypeError] when the response has no body, and a rejection of the
    transport is passed on as it is. *)
Theorem metadataRequest_outcome url :
  let req := metadataRequestFor (replace_first "v1" "prom" url) in
  calls (metadataRequest url) = [DatasourceRequest req]
  /\ (forall e, datasourceRequest req = Rejected e ->
                settled (metadataRequest url) = Rejected e)
  /\ (forall res, datasourceRequest req = Resolved res -> res_data res = None ->
                  settled (metadataRequest url) = Rejected typeError)
  /\ (forall res d, datasourceRequest req = Resolved res -> res_data res = Some d ->
                    settled (metadataRequest url)
                    = Resolved {| mr_data := {| md_data := labelValues res |} |}).
Proof.
  intros req. split; [reflexivity|].
  unfold metadataRequest, promise_then, settled, _request. cbn [snd fst calls].
  change (obj_set _ _ _) with req.
  split; [|split].
  - now intros e ->.
  - intros res -> Hd. now rewrite Hd.
  - intros res d -> Hd. unfold labelValues. now rewrite Hd.
Qed.

(** *** Health check *)

Lemma has_labels_iff res : has_labels res = true <-> labelValues res <> [].
Proof using.
  unfold has_labels, labelValues.
  destruct (res_data res) as [d|];
    [|split; [discriminate | intros H; exfalso; apply H; reflexivity]].
  destruct (rd_values d) as [[|v vs]|]; simpl; split; intros H;
    try discriminate; try reflexivity; exfalso; apply H; reflexivity.
Qed.

(** X17. [testDatasource] makes exactly one request.  When the request
    succeeds it resolves, with status [success] if the response has at
    least one label value and with status [error] if it has none; and
    whenever it resolves, the status is one of the two, [success] only
    after a request that succeeded with a label value. *)
Theorem testDatasource_status :
  calls testDatasource = [DatasourceRequest labelRequest]
  /\ (forall res,
         datasourceRequest labelRequest = Resolved res ->
         exists r,
           settled testDatasource = Resolved r
           /\ (status r = "success" <-> labelValues res <> [])
           /\ (status r = "error" <-> labelValues res = []))
  /\ (forall r,
         settled testDatasource = Resolved r ->
         (status r = "success" \/ status r = "error")
         /\ (status r = "success" ->
             exists res,
               datasourceRequest labelRequest = Resolved res /\ labelValues res <> [])).
Proof using datasourceRequest this.
  split; [reflexivity|].
  unfold testDatasource, promise_catch, promise_then, settled, calls, _request.
  cbn [snd fst]. change (obj_set _ _ _) with labelRequest.
  split.
  - intros res ->. pose proof (has_labels_iff res) as Hl.
    destruct (has_labels res) eqn:Hh; eexists; (split; [reflexivity|]); cbn [status].
    + split; split; try discriminate; try reflexivity.
      * intros _. now apply Hl.
      * intros He. exfalso. now apply (proj1 Hl).
    + split; split; try discriminate; try reflexivity.
      * intros Hne. apply Hl in Hne. discriminate.
      * intros _. destruct (labelValues res) as [|v vs]; [reflexivity|].
        exfalso. assert (Hne : v :: vs <> []) by discriminate.
        apply Hl in Hne. discriminate.
  - intros r. destruct (datasourceRequest labelRequest) as [res | e] eqn:E.
    + pose proof (has_labels_iff res) as Hl.
      destruct (has_labels res) eqn:Hh; intros [= <-]; cbn [status].
      * split; [now left|]. intros _. exists res. split; [reflexivity | now apply Hl].
      * split; [now right | discriminate].
    + intros [= <-]. cbn [status connectionError]. split; [now right | discriminate].
Qed.

(** *** What a batch query writes *)

Lemma tagAll_frame regexp streams store l :
  labels (tagAll regexp streams store l) = labels (store l)
  /\ entries (tagAll regexp streams store l) = entries (store l)
  /\ (search (tagAll regexp streams store l) = search (store l)
      \/ search (tagAll regexp streams store l) = regexp).
Proof using.
  destruct (in_dec Nat.eq_dec l streams) as [Hin | Hnin].
  - rewrite (tagAll_in _ _ _ _ Hin). repeat split. now right.
  - rewrite (tagAll_notin _ _ _ _ Hnin). repeat split. now left.
Qed.

Lemma collectStreams_frame results queryTargets n :
  forall i store allStreams l,
    let store' := fst (collectStreams results queryTargets n i store allStreams) in
    labels (store' l) = labels (store l)
    /\ entries (store' l) = entries (store l)
    /\ (search (store' l) = search (store l)
        \/ exists query, In query queryTargets /\ search (store' l) = obj_get "regexp" query).
Proof.
  induction n as [|n IH]; intros i store acc l; cbn [collectStreams].
  - repeat split. now left.
  - destruct (nth_error results i) as [r|]; [|repeat split; now left].
    destruct (res_data r) as [d|]; [|apply IH].
    destruct (match rd_streams d with Some l0 => l0 | None => [] end) as [|x xs] eqn:Es;
      [apply IH|].
    destruct (nth_error queryTargets i) as [q|] eqn:Eq; [|repeat split; now left].
    rewrite tagStreams_tagAll. cbn [fst snd].
    specialize (IH (S i) (tagAll (obj_get "regexp" q) (x :: xs) store) (acc ++ x :: xs) l).
    cbv zeta in IH. destruct IH as (Hl & He & Hs).
    destruct (tagAll_frame (obj_get "regexp" q) (x :: xs) store l) as (Hl' & He' & Hs').
    split; [congruence|]. split; [congruence|].
    destruct Hs as [Hs | Hs]; [|now right].
    destruct Hs' as [Hs' | Hs']; [left; congruence|].
    right. exists q. split; [eapply nth_error_In; eauto | congruence].
Qed.

Lemma query_store_is_loop_store store options :
  fst (query store options) = store
  \/ exists results n i allStreams,
       fst (query store options)
       = fst (collectStreams results
                (map (fun target => prepareQueryTarget target options)
                   (filter active (targets options)))
                n i store allStreams).
Proof.
  unfold query. destruct (Nat.eqb _ 0); [now left|].
  unfold promise_then_st.
  match goal with |- context [settled ?p] => destruct (settled p) as [results | e] end;
    [|now left].
  right. exists results, (List.length results), 0, [].
  cbn [fst].
  destruct (collectStreams _ _ _ _ _ _) as [store' [allStreams|]]; [|reflexivity].
  destruct (nth_error (targets options) 0) as [first|]; [|reflexivity].
  now destruct (is_time_series (format first)).
Qed.

(** X10. Whatever the responses are, [query] leaves the labels and the entries
    of every stream object as they were; the one property it writes is
    [search], and what it writes there is the line filter of an active
    target. *)
Theorem query_writes_search_only store options l :
  labels (fst (query store options) l) = labels (store l)
  /\ entries (fst (query store options) l) = entries (store l)
  /\ (search (fst (query store options) l) = search (store l)
      \/ exists target,
           In target (filter active (targets options))
           /\ search (fst (query store options) l) = JStr (targetRegexp target)).
Proof.
  destruct (query_store_is_loop_store store options)
    as [-> | (results & n & i & allStreams & ->)].
  - repeat split. now left.
  - destruct (collectStreams_frame results
                (map (fun target => prepareQueryTarget target options)
                   (filter active (targets options))) n i store allStreams l)
      as (Hl & He & Hs).
    split; [exact Hl|]. split; [exact He|].
    destruct Hs as [Hs | (q & Hq & Hs)]; [now left|].
    right. apply in_map_iff in Hq as (target & <- & Hin).
    exists target. split; [exact Hin|]. now rewrite Hs, prepareQueryTarget_regexp.
Qed.



(** X12. Responses that carry no stream, for want of a body or of a [streams]
    property, add nothing and raise nothing: when no response has a stream,
    the result in raw format is the empty list and the store is left as it
    was. *)
Theorem query_tolerates_empty_responses store options first :
  nth_error (targets options) 0 = Some first ->
  format first <> Some "time_series" ->
  allResolved options ->
  (forall target, In target (filter active (targets options)) ->
                  targetStreams options target = []) ->
  query store options
  = (store,
     (map (fun target => DatasourceRequest (requestFor options target))
        (filter active (targets options)),
      Resolved {| data := [] |})).
Proof.
  intros Hfirst Hfmt Hall Hempty.
  destruct (filter active (targets options)) as [|t ts] eqn:Hact.
  { unfold query. now rewrite Hact. }
  assert (Hne : filter active (targets options) <> []) by (rewrite Hact; discriminate).
  destruct (query_settled store options first Hne Hfirst Hall) as [Hst Hres].
  pose proof (query_calls store options) as Hcalls.
  assert (Hcomb : combinedStreams options = []).
  { unfold combinedStreams. rewrite Hact in *. clear -Hempty.
    induction (t :: ts) as [|x xs IH]; [reflexivity|].
    cbn [flat_map]. rewrite (Hempty x (or_introl eq_refl)).
    apply IH. intros y Hy. apply Hempty. now right. }
  assert (Hstore : taggedStore store options = store).
  { unfold taggedStore. rewrite Hact in *. clear -Hempty. revert store.
    induction (t :: ts) as [|x xs IH]; intros store; [reflexivity|].
    cbn [fold_left]. rewrite (Hempty x (or_introl eq_refl)).
    apply IH. intros y Hy. apply Hempty. now right. }
  rewrite Hcomb in Hres. rewrite Hstore in Hst.
  assert (Hts : is_time_series (format first) = false).
  { destruct (format first) as [f|]; [|reflexivity]. simpl.
    destruct (String.eqb_spec f "time_series"); [congruence | reflexivity]. }
  rewrite Hts in Hres. cbn [map] in Hres. rewrite Hact in Hcalls.
  destruct (query store options) as [st [cs out]]. cbn [fst snd calls settled] in *.
  now subst.
Qed.

(** *** Live tailing *)

(** X9. Every socket of [stream] is opened on the same looked-up connection:
    user and password, as [String] prints them, and the host of the
    looked-up URL go into the socket URL as they are, and the only
    parameters are the encoded [query] and [regexp] of the target.  When
    the looked-up URL is one the URL constructor refuses, no socket is
    opened and the source fails with a [TypeError]; when the lookup fails,
    every source fails with its error. *)
Theorem tail_sockets options target :
  (forall info host,
      backendSrv_get lookupUrl = Resolved info ->
      url_host (js_toString (info_url info)) = Some host ->
      socketFor options target
      = SocketOpen ("ws://" ++ js_toString (basicAuthUser info) ++ ":"
                    ++ js_toString (basicAuthPassword info)
                    ++ "@" ++ host ++ "/api/prom/tail?query="
                    ++ encodeURIComponent (targetSelector target) ++ "&regexp="
                    ++ encodeURIComponent (targetRegexp target))%string)
  /\ (forall info,
         backendSrv_get lookupUrl = Resolved info ->
         url_host (js_toString (info_url info)) = None ->
         socketFor options target = SocketFailed typeError)
  /\ (forall e, backendSrv_get lookupUrl = Rejected e ->
                socketFor options target = SocketFailed e).
Proof.
  unfold socketFor, _stream. cbn [snd]. fold lookupUrl. split; [|split].
  - intros info host -> ->. reflexivity.
  - now intros info -> ->.
  - now intros e ->.
Qed.

End Datasource.

(** ** The cap on merged rows *)

Section MergeCap.

Variable templateSrv_replace : string -> string.
Variable parseQuery : string -> ParsedQuery.
Variable makeSeriesForLogs : list LogRowModel -> Z -> list TimeSeries.
Variable dateMath_parse : string -> bool -> Moment.
Variable moment_now : Moment.
Variable EXPLORE_POLLING_INTERVAL_MS : Z.
Variable datasourceRequest : JsObject -> Outcome HttpResponse.
Variable settleOrder : list nat.
Variable this : LokiDatasource.

Lemma string_leb_iff (a b : string) :
  String.leb a b = true <-> a = b \/ String_as_OT.lt a b.
Proof.
  unfold String.leb. destruct (String.compare a b) eqn:E.
  - apply String_as_OT.cmp_eq in E. tauto.
  - apply String_as_OT.cmp_lt in E. tauto.
  - split; [discriminate|]. intros [H | H].
    + apply String_as_OT.cmp_eq in H. unfold String_as_OT.cmp in H. congruence.
    + apply String_as_OT.cmp_lt in H. unfold String_as_OT.cmp in H. congruence.
Qed.

Lemma string_leb_trans (a b c : string) :
  String.leb a b = true -> String.leb b c = true -> String.leb a c = true.
Proof.
  rewrite !string_leb_iff. intros [-> | Hab] [-> | Hbc]; auto.
  right. eapply String_as_OT.lt_trans; eauto.
Qed.

Lemma newer_eq_trans (a b c : LogRowModel) :
  newer_eq a b = true -> newer_eq b c = true -> newer_eq a c = true.
Proof. unfold newer_eq. intros H1 H2. eapply string_leb_trans; eauto. Qed.

Lemma newer_eq_total (a b : LogRowModel) :
  newer_eq a b = false -> newer_eq b a = true.
Proof.
  unfold newer_eq. intros H.
  destruct (String.leb_total (row_timestamp b) (row_timestamp a)); congruence.
Qed.

Lemma insert_row_perm r l : Permutation (insert_row r l) (r :: l).
Proof.
  induction l as [|x l IH]; simpl; [reflexivity|].
  destruct (newer_eq r x); [reflexivity|].
  rewrite IH. apply perm_swap.
Qed.

Lemma sort_rows_perm l : Permutation (sort_rows l) l.
Proof.
  induction l as [|x l IH]; simpl; [reflexivity|].
  rewrite insert_row_perm. now constructor.
Qed.

Lemma insert_row_sorted r l : newest_first l -> newest_first (insert_row r l).
Proof.
  unfold newest_first. induction 1 as [|x l Hl IH Hx]; simpl.
  - repeat constructor.
  - destruct (newer_eq r x) eqn:E.
    + constructor; [now constructor|]. constructor; [exact E|].
      eapply Forall_impl; [|exact Hx]. intros y Hy. eapply newer_eq_trans; eauto.
    + constructor; [exact IH|].
      eapply Permutation_Forall; [symmetry; apply insert_row_perm|].
      constructor; [now apply newer_eq_total | exact Hx].
Qed.

Lemma sort_rows_sorted l : newest_first (sort_rows l).
Proof.
  induction l as [|x l IH]; simpl; [constructor | now apply insert_row_sorted].
Qed.

Lemma sorted_prefix_newer l : newest_first l ->
  forall n r d, In r (firstn n l) -> In d (skipn n l) -> newer_eq r d = true.
Proof.
  unfold newest_first. induction 1 as [|x l Hl IH Hx]; intros [|n] r d; simpl; try tauto.
  intros [<- | Hr] Hd.
  - rewrite Forall_forall in Hx. apply Hx.
    rewrite <- (firstn_skipn n l). apply in_or_app. now right.
  - eapply IH; eauto.
Qed.

(** C7. With the aggregation utility as the spec describes it, the model
    [mergeStreams] returns never has more rows than the configured cap,
    which is the limit the utility is handed; from more raw rows than the
    cap it keeps exactly as many as the cap. The rows kept are the most
    recent: each is at least as recent as every row left out. The series
    are derived from the kept rows, and the [time_series] branch of [query]
    returns the series of that same merge of the combined streams. *)
Theorem mergeStreams_cap (streams : list LogsStream) (interval : Z) :
  (0 <= maxLines this)%Z ->
  let logs := mergeStreams specMergeStreamsToLogs makeSeriesForLogs this streams interval in
  let raw := flat_map stream_rows streams in
  rows logs = rows (specMergeStreamsToLogs streams (maxLines this))
  /\ (Z.of_nat (List.length (rows logs)) <= maxLines this)%Z
  /\ ((maxLines this < Z.of_nat (List.length raw))%Z ->
      Z.of_nat (List.length (rows logs)) = maxLines this)
  /\ (exists dropped,
         Permutation (rows logs ++ dropped) raw
         /\ forall r d, In r (rows logs) -> In d dropped -> newer_eq r d = true)
  /\ series logs = Some (makeSeriesForLogs (rows logs) interval)
  /\ (forall store options first,
         nth_error (targets options) 0 = Some first ->
         format first = Some "time_series" ->
         filter active (targets options) <> [] ->
         allResolved templateSrv_replace parseQuery dateMath_parse moment_now
           EXPLORE_POLLING_INTERVAL_MS datasourceRequest this options ->
         let run :=
           query templateSrv_replace parseQuery specMergeStreamsToLogs makeSeriesForLogs
             dateMath_parse moment_now EXPLORE_POLLING_INTERVAL_MS datasourceRequest
             settleOrder this store options in
         exists merged,
           merged = mergeStreams specMergeStreamsToLogs makeSeriesForLogs this
                      (map (fst run)
                         (combinedStreams templateSrv_replace parseQuery dateMath_parse
                            moment_now EXPLORE_POLLING_INTERVAL_MS datasourceRequest this
                            options))
                      (intervalMs options)
           /\ (Z.of_nat (List.length (rows merged)) <= maxLines this)%Z
           /\ exists merged_series,
                series merged = Some merged_series
                /\ settled (snd run) = Resolved {| data := map SeriesDatum merged_series |}).
Proof.
  intros Hcap logs raw.
  assert (Hlen : forall ss,
             List.length (rows (specMergeStreamsToLogs ss (maxLines this)))
             = Nat.min (Z.to_nat (maxLines this)) (List.length (flat_map stream_rows ss))).
  { intros ss. unfold specMergeStreamsToLogs. cbn [rows].
    rewrite length_firstn. f_equal. apply Permutation_length, sort_rows_perm. }
  split; [reflexivity|]. split; [|split; [|split; [|split]]].
  - unfold logs, mergeStreams. cbn [rows]. rewrite Hlen. lia.
  - intros Hmore. unfold logs, mergeStreams. cbn [rows]. rewrite Hlen.
    fold raw. lia.
  - exists (skipn (Z.to_nat (maxLines this)) (sort_rows raw)).
    unfold logs, mergeStreams, specMergeStreamsToLogs. cbn [rows]. fold raw. split.
    + rewrite firstn_skipn. apply sort_rows_perm.
    + intros r d. apply sorted_prefix_newer, sort_rows_sorted.
  - reflexivity.
  - intros store options first Hfirst Hfmt Hne Hall run.
    eexists. split; [reflexivity|]. split.
    + unfold mergeStreams. cbn [rows]. rewrite Hlen. lia.
    + eexists. split; [reflexivity|].
      destruct (query_settled templateSrv_replace parseQuery specMergeStreamsToLogs
                  makeSeriesForLogs dateMath_parse moment_now EXPLORE_POLLING_INTERVAL_MS
                  datasourceRequest settleOrder this store options first Hne Hfirst Hall)
        as [Hst Hres].
      unfold run. rewrite Hres, Hst. now rewrite Hfmt.
Qed.

End MergeCap.

(** ** The order in which requests settle *)

Section SettleOrder.

Variable templateSrv_replace : string -> string.
Variable parseQuery : string -> ParsedQuery.
Variable mergeStreamsToLogs : list LogsStream -> Z -> LogsModel.
Variable makeSeriesForLogs : list LogRowModel -> Z -> list TimeSeries.
Variable dateMath_parse : string -> bool -> Moment.
Variable moment_now : Moment.
Variable EXPLORE_POLLING_INTERVAL_MS : Z.
Variable datasourceRequest : JsObject -> Outcome HttpResponse.
Variable this : LokiDatasource.

Lemma first_rejection_app {A} (outs : list (Outcome A)) (o1 o2 : list nat) :
  first_rejection outs (o1 ++ o2) =
  match first_rejection outs o1 with
  | Some e => Some e
  | None => first_rejection outs o2
  end.
Proof.
  induction o1 as [|i o1 IH]; simpl; [reflexivity|].
  destruct (rejection_at outs i); [reflexivity | exact IH].
Qed.

Lemma first_rejection_none_iff {A} (outs : list (Outcome A)) (order : list nat) :
  first_rejection outs (order ++ seq 0 (List.length outs)) = None
  <-> forall i, rejection_at outs i = None.
Proof.
  split.
  - intros H i. destruct (rejection_at outs i) as [e|] eqn:E; [|reflexivity].
    exfalso.
    destruct (first_rejection_some outs (order ++ seq 0 (List.length outs)) i e)
      as [e' He']; [|exact E|congruence].
    apply in_or_app. right. apply in_seq. split; [lia|]. simpl.
    unfold rejection_at in E. destruct (nth_error outs i) eqn:En; [|discriminate].
    apply nth_error_Some. congruence.
  - apply first_rejection_none.
Qed.

Lemma promise_all_order {A} (o1 o2 : list nat) (ps : list (Promise A)) :
  promise_all o1 ps = promise_all o2 ps
  \/ exists e1 e2,
       settled (promise_all o1 ps) = Rejected e1
       /\ settled (promise_all o2 ps) = Rejected e2.
Proof.
  assert (Hp : forall o,
             promise_all o ps
             = (List.concat (map calls ps), settled (promise_all o ps))) by reflexivity.
  rewrite (Hp o1), (Hp o2), !settled_promise_all.
  destruct (first_rejection _ (o1 ++ _)) as [e1|] eqn:E1;
    destruct (first_rejection _ (o2 ++ _)) as [e2|] eqn:E2.
  - right. now exists e1, e2.
  - exfalso. pose proof (proj1 (first_rejection_none_iff _ _) E2) as H.
    rewrite (proj2 (first_rejection_none_iff _ o1) H) in E1. discriminate.
  - exfalso. pose proof (proj1 (first_rejection_none_iff _ _) E1) as H.
    rewrite (proj2 (first_rejection_none_iff _ o2) H) in E2. discriminate.
  - now left.
Qed.

(** X13. The order in which the requests settle decides nothing but which
    rejection is reported: the calls made and the store left behind are the
    same for any two orders, and the call resolves with a result under one
    order exactly when it resolves with that result under the other. *)
Theorem query_settle_order (o1 o2 : list nat) store options :
  let run o :=
    query templateSrv_replace parseQuery mergeStreamsToLogs makeSeriesForLogs
      dateMath_parse moment_now EXPLORE_POLLING_INTERVAL_MS datasourceRequest o this
      store options in
  fst (run o1) = fst (run o2)
  /\ calls (snd (run o1)) = calls (snd (run o2))
  /\ (forall r, settled (snd (run o1)) = Resolved r <-> settled (snd (run o2)) = Resolved r)
  /\ ((exists e, settled (snd (run o1)) = Rejected e)
      <-> (exists e, settled (snd (run o2)) = Rejected e)).
Proof.
  intros run.
  assert (H : run o1 = run o2
              \/ exists cs e1 e2,
                   run o1 = (store, (cs, Rejected e1))
                   /\ run o2 = (store, (cs, Rejected e2))).
  { unfold run, query. destruct (Nat.eqb _ 0); [now left|].
    unfold promise_then_st.
    match goal with |- context [promise_all o1 ?ps] =>
      destruct (promise_all_order o1 o2 ps) as [-> | (e1 & e2 & H1 & H2)] end;
      [now left|].
    right. eexists. exists e1, e2. rewrite H1, H2. split; reflexivity. }
  destruct H as [-> | (cs & e1 & e2 & -> & ->)].
  - split; [reflexivity|]. split; [reflexivity|]. split; [intros r|]; reflexivity.
  - cbn [fst snd calls settled].
    split; [reflexivity|]. split; [reflexivity|]. split.
    + intros r. split; discriminate.
    + split; intros _; eauto.
Qed.

Lemma query_outcomes options (ts : list LokiQuery) :
  map settled
    (map (fun target => _request datasourceRequest this "/api/prom/query" (Some target) None)
       (map (fun target =>
               prepareQueryTarget templateSrv_replace parseQuery dateMath_parse moment_now
                 EXPLORE_POLLING_INTERVAL_MS this target options) ts))
  = map (fun target =>
           datasourceRequest
             (requestFor templateSrv_replace parseQuery dateMath_parse moment_now
                EXPLORE_POLLING_INTERVAL_MS this options target)) ts.
Proof. rewrite !map_map. apply map_ext. intros t. reflexivity. Qed.

(** X14. A batch call rejects with the rejection of the failed request that
    settles first: when the requests that settle before the one of a
    target all succeed and that one fails, its error is the error of the
    call. *)
Theorem query_rejects_with_first_failure (earlier later : list nat) (i : nat)
  store options target e :
  nth_error (filter active (targets options)) i = Some target ->
  datasourceRequest
    (requestFor templateSrv_replace parseQuery dateMath_parse moment_now
       EXPLORE_POLLING_INTERVAL_MS this options target) = Rejected e ->
  (forall j t, In j earlier -> nth_error (filter active (targets options)) j = Some t ->
     exists res,
       datasourceRequest
         (requestFor templateSrv_replace parseQuery dateMath_parse moment_now
            EXPLORE_POLLING_INTERVAL_MS this options t) = Resolved res) ->
  settled
    (snd (query templateSrv_replace parseQuery mergeStreamsToLogs makeSeriesForLogs
            dateMath_parse moment_now EXPLORE_POLLING_INTERVAL_MS datasourceRequest
            (earlier ++ i :: later) this store options))
  = Rejected e.
Proof.
  intros Hi Hrej Hearlier. unfold query.
  set (ts := filter active (targets options)) in *.
  destruct (Nat.eqb _ 0) eqn:E.
  { destruct ts; [destruct i; discriminate | discriminate]. }
  clear E. unfold promise_then_st.
  rewrite settled_promise_all, query_outcomes.
  rewrite <- app_assoc, first_rejection_app.
  assert (Hat : forall j,
             rejection_at
               (map (fun target =>
                       datasourceRequest
                         (requestFor templateSrv_replace parseQuery dateMath_parse
                            moment_now EXPLORE_POLLING_INTERVAL_MS this options target)) ts) j
             = match nth_error ts j with
               | Some t =>
                   match datasourceRequest
                           (requestFor templateSrv_replace parseQuery dateMath_parse
                              moment_now EXPLORE_POLLING_INTERVAL_MS this options t) with
                   | Rejected e' => Some e'
                   | Resolved _ => None
                   end
               | None => None
               end).
  { intros j. unfold rejection_at. rewrite nth_error_map.
    destruct (nth_error ts j) as [t|]; [|reflexivity]. cbn [option_map].
    now destruct (datasourceRequest _). }
  assert (Hnone : first_rejection
                    (map (fun target =>
                            datasourceRequest
                              (requestFor templateSrv_replace parseQuery dateMath_parse
                                 moment_now EXPLORE_POLLING_INTERVAL_MS this options target))
                       ts) earlier = None).
  { clear -Hearlier Hat. induction earlier as [|j earlier IH]; [reflexivity|].
    cbn [first_rejection]. rewrite Hat.
    destruct (nth_error ts j) as [t|] eqn:Et.
    - destruct (Hearlier j t (or_introl eq_refl) Et) as [res ->].
      apply IH. intros j' t' Hj'. apply Hearlier. now right.
    - apply IH. intros j' t' Hj'. apply Hearlier. now right. }
  rewrite Hnone. cbn [app first_rejection]. rewrite Hat, Hi, Hrej. reflexivity.
Qed.

(** X3. The limit sent with every batch query is the one the constructor
    chose: the parsed setting, or 1000 when the setting is missing,
    unparsable or zero; it is never zero, and a negative setting is sent as
    it is. *)
Theorem configured_limit_is_sent url id parsed target options :
  obj_get "limit"
    (prepareQueryTarget templateSrv_replace parseQuery dateMath_parse moment_now
       EXPLORE_POLLING_INTERVAL_MS (newLokiDatasource url id parsed) target options)
  = JNum (configuredMaxLines parsed)
  /\ configuredMaxLines parsed <> 0%Z
  /\ (parsed = None \/ parsed = Some 0%Z -> configuredMaxLines parsed = 1000%Z)
  /\ (forall n, parsed = Some n -> n <> 0%Z -> configuredMaxLines parsed = n).
Proof.
  split; [reflexivity|]. split; [apply configuredMaxLines_nonzero|]. split.
  - intros [-> | ->]; reflexivity.
  - intros n -> Hn. unfold configuredMaxLines.
    destruct (Z.eqb_spec n 0); [contradiction | reflexivity].
Qed.

End SettleOrder.

(** ** The requests of two targets *)

Section TwoTargets.

Variable templateSrv_replace : string -> string.
Variable parseQuery : string -> ParsedQuery.
Variable EXPLORE_POLLING_INTERVAL_MS : Z.
Variable this : LokiDatasource.

(** [prepareQueryTarget] reads the clock, and parses a string date, anew
    for every target: what they give for the first target, and for the
    second. *)
Variable dateMath_parse : string -> bool -> Moment.
Variable moment_now : Moment.
Variable dateMath_parse' : string -> bool -> Moment.
Variable moment_now' : Moment.

(** X5. Two targets that are sent the same request have the same selector
    and the same line filter, whatever the clock reads when each is
    prepared.  For a range given by two moments and without streaming the
    converse holds as well: nothing else of a target reaches the
    backend. *)
Theorem requests_distinguish_targets options target target' :
  (requestFor templateSrv_replace parseQuery dateMath_parse moment_now
     EXPLORE_POLLING_INTERVAL_MS this options target
   = requestFor templateSrv_replace parseQuery dateMath_parse' moment_now'
       EXPLORE_POLLING_INTERVAL_MS this options target'
   -> targetSelector templateSrv_replace parseQuery target
      = targetSelector templateSrv_replace parseQuery target'
      /\ targetRegexp templateSrv_replace parseQuery target
         = targetRegexp templateSrv_replace parseQuery target')
  /\ (is_streaming options = false ->
      (exists X, from (range options) = DateMoment X) ->
      (exists Y, to (range options) = DateMoment Y) ->
      targetSelector templateSrv_replace parseQuery target
      = targetSelector templateSrv_replace parseQuery target' ->
      targetRegexp templateSrv_replace parseQuery target
      = targetRegexp templateSrv_replace parseQuery target' ->
      requestFor templateSrv_replace parseQuery dateMath_parse moment_now
        EXPLORE_POLLING_INTERVAL_MS this options target
      = requestFor templateSrv_replace parseQuery dateMath_parse' moment_now'
          EXPLORE_POLLING_INTERVAL_MS this options target').
Proof.
  unfold requestFor. split.
  - remember (serializeParams
                (prepareQueryTarget _ _ dateMath_parse _ _ _ target options)) as p eqn:Ep.
    remember (serializeParams
                (prepareQueryTarget _ _ dateMath_parse' _ _ _ target' options)) as p' eqn:Ep'.
    intros [= H]. apply string_app_inv_head in H.
    repeat match type of H with String _ _ = String _ _ => injection H as H end.
    change (p = p') in H. rewrite Ep, Ep' in H.
    apply serializeParams_pairs_inj in H.
    rewrite !prepareQueryTarget_normal_form in H.
    pose proof (f_equal (fun l => nth 2 l "") H) as Hr.
    pose proof (f_equal (fun l => nth 3 l "") H) as Hq.
    cbn [nth map] in Hr, Hq.
    apply param_pair_inj in Hr as [_ Hr]. apply param_pair_inj in Hq as [_ Hq].
    split; assumption.
  - intros Hs [X HX] [Y HY] Hq Hr. rewrite !prepareQueryTarget_normal_form.
    rewrite Hs, HX, HY, Hq, Hr. reflexivity.
Qed.

End TwoTargets.

(** ** The statements on the sample inputs *)

Example serializeParams_sample :
  serializeParams [("a b", JStr "x/y&z"); ("limit", JNum 1000); ("silent", JBool true)]
  = "a%20b=x%2Fy%26z&limit=1000&silent=true".
Proof. reflexivity. Qed.

Example prepareQueryTarget_sample :
  prepareQueryTarget sampleReplace sampleParseQuery sampleDateParse 1556704802000%Z 2000%Z
    sampleDatasource queryA sampleOptions
  = [ ("direction", JStr "BACKWARD"); ("limit", JNum 2); ("regexp", JStr "a");
      ("query", JStr ""); ("start", JNum 1556704801235000064); ("end", JNum 1556704801235000064) ].
Proof. reflexivity. Qed.

Example query_sample :
  snd (query sampleReplace sampleParseQuery specMergeStreamsToLogs sampleSeries
         sampleDateParse 1556704802000%Z 2000%Z respondWithStreams [] sampleDatasource
         sampleStore rawOptions)
  = ([ DatasourceRequest
         [("url", JStr "http://loki:3100/api/prom/query?direction=BACKWARD&limit=2&regexp=b&query=&start=1556704801235000000&end=1556704801235000000")];
       DatasourceRequest
         [("url", JStr "http://loki:3100/api/prom/query?direction=BACKWARD&limit=2&regexp=a&query=&start=1556704801235000000&end=1556704801235000000")] ],
     Resolved {| data := [StreamDatum 1; StreamDatum 0] |}).
Proof. reflexivity. Qed.

Example query_sample_tags :
  let store' :=
    fst (query sampleReplace sampleParseQuery specMergeStreamsToLogs sampleSeries
           sampleDateParse 1556704802000%Z 2000%Z respondWithStreams [] sampleDatasource
           sampleStore rawOptions) in
  search (store' 0) = JStr "a" /\ search (store' 1) = JStr "b"
  /\ search (store' 2) = JUndefined.
Proof. repeat split. Qed.

Example stream_sample :
  stream sampleReplace sampleParseQuery sampleUrlHost
    (fun _ => Resolved {| info_url := JStr "http://loki:3100"; basicAuthUser := JStr "u";
                          basicAuthPassword := JStr "p" |})
    sampleDatasource sampleOptions
  = ([BackendGet "api/datasources/7"; BackendGet "api/datasources/7"],
     ObsCombineLatest
       [ SocketOpen "ws://u:p@loki:3100/api/prom/tail?query=&regexp=a";
         SocketOpen "ws://u:p@loki:3100/api/prom/tail?query=&regexp=b" ])
  /\ snd (stream sampleReplace sampleParseQuery sampleUrlHost resolveBareLookup
            sampleDatasource sampleOptions)
     = ObsCombineLatest [SocketFailed typeError; SocketFailed typeError]
  /\ snd (stream sampleReplace sampleParseQuery sampleUrlHost resolveOpenLookup
            sampleDatasource rawOptions)
     = ObsCombineLatest
         [ SocketOpen "ws://undefined:undefined@loki:3100/api/prom/tail?query=&regexp=b";
           SocketOpen "ws://undefined:undefined@loki:3100/api/prom/tail?query=&regexp=a" ].
Proof. repeat split. Qed.

Lemma sample_all_resolved :
  allResolved sampleReplace sampleParseQuery sampleDateParse 1556704802000%Z 2000%Z
    respondWithStreams sampleDatasource sampleOptions.
Proof.
  intros target [<- | [<- | []]]; eexists; vm_compute; reflexivity.
Defined.

(** C1, as stated, fails: a successful check whose list of label values
    is empty gets the status [error], the status of a failed check. *)
Lemma testDatasource_no_labels_has_error_status :
  testDatasource respondWithoutLabels sampleDatasource
  = ([DatasourceRequest [("url", JStr "http://loki:3100/api/prom/label?")]],
     Resolved
       {| status := "error";
          message := "Data source connected, but no labels received. Verify that Loki and Promtail is configured properly." |})
  /\ testDatasource rejectAll sampleDatasource
     = ([DatasourceRequest [("url", JStr "http://loki:3100/api/prom/label?")]],
        Resolved {| status := "error"; message := "Loki: Internal Error. 500" |}).
Proof. split; reflexivity. Qed.

Lemma testDatasource_no_labels_sample :
  settled (testDatasource respondWithoutLabels sampleDatasource)
  = Resolved {| status := "error"; message := noLabelsMessage |}.
Proof.
  apply (testDatasource_no_labels respondWithoutLabels sampleDatasource noLabelsResponse);
    reflexivity.
Defined.

Lemma query_shape_sample :
  settled (snd (query sampleReplace sampleParseQuery specMergeStreamsToLogs sampleSeries
                  sampleDateParse 1556704802000%Z 2000%Z respondWithStreams [] sampleDatasource
                  sampleStore sampleOptions))
  = Resolved
      {| data := [SeriesDatum {| alias := "lines"; datapoints := [(2%Z, 1000%Z)] |}] |}.
Proof.
  apply (query_shape_by_first_format sampleReplace sampleParseQuery
           specMergeStreamsToLogs sampleSeries sampleDateParse 1556704802000%Z 2000%Z
           respondWithStreams [] sampleDatasource sampleStore sampleOptions queryA
           [queryB; queryHidden] eq_refl sample_all_resolved).
  - reflexivity.
  - left. discriminate.
Defined.

Lemma inactive_targets_sample :
  query sampleReplace sampleParseQuery specMergeStreamsToLogs sampleSeries
    sampleDateParse 1556704802000%Z 2000%Z rejectAll [] sampleDatasource sampleStore hiddenOptions
  = (sampleStore, ([], Resolved {| data := [] |}))
  /\ stream sampleReplace sampleParseQuery sampleUrlHost
       (fun _ => Rejected internalError) sampleDatasource hiddenOptions
     = ([], ObsFromEmpty).
Proof.
  apply (inactive_targets_excluded sampleReplace sampleParseQuery
           specMergeStreamsToLogs sampleSeries sampleDateParse 1556704802000%Z 2000%Z
           sampleUrlHost rejectAll (fun _ => Rejected internalError) []
           sampleDatasource sampleStore hiddenOptions).
  intros target [<- | [<- | []]]; [right | left]; reflexivity.
Defined.

Lemma query_rejects_sample :
  exists e',
    settled (snd (query sampleReplace sampleParseQuery specMergeStreamsToLogs sampleSeries
                    sampleDateParse 1556704802000%Z 2000%Z rejectFilterB [1; 0] sampleDatasource
                    sampleStore sampleOptions)) = Rejected e'
    /\ fst (query sampleReplace sampleParseQuery specMergeStreamsToLogs sampleSeries
              sampleDateParse 1556704802000%Z 2000%Z rejectFilterB [1; 0] sampleDatasource
              sampleStore sampleOptions) = sampleStore
    /\ exists target',
         In target' (filter active (targets sampleOptions))
         /\ rejectFilterB
              (requestFor sampleReplace sampleParseQuery sampleDateParse 1556704802000%Z 2000%Z
                 sampleDatasource sampleOptions target') = Rejected e'.
Proof.
  apply (query_rejects_when_a_request_fails sampleReplace sampleParseQuery
           specMergeStreamsToLogs sampleSeries sampleDateParse 1556704802000%Z 2000%Z
           rejectFilterB [1; 0] sampleDatasource sampleStore sampleOptions queryB
           internalError).
  - right. left. reflexivity.
  - reflexivity.
  - reflexivity.
Defined.

(** C5, as stated, fails: for a present-day time value the number
    returned is not [ceil(X * 10^6)], and it can lie below [X * 10^6],
    which no ceiling does. *)
Lemma getTime_off_the_ceiling :
  getTime sampleDateParse (DateMoment 1556704801235%Z) false
  <> Qceiling (inject_Z 1556704801235 * 1000000)%Q
  /\ getTime sampleDateParse (DateMoment 1556704801235%Z) false = 1556704801235000064%Z
  /\ getTime sampleDateParse (DateMoment 1556704801001%Z) true = 1556704801000999936%Z
  /\ (1556704801000999936 < 1556704801001 * 1000000)%Z.
Proof. repeat split. discriminate. Qed.

Lemma getTime_sample :
  obj_get "start"
    (prepareQueryTarget sampleReplace sampleParseQuery sampleDateParse 1556704802000%Z
       2000%Z sampleDatasource queryA sampleOptions) = JNum 1556704801235000064
  /\ obj_get "end"
       (prepareQueryTarget sampleReplace sampleParseQuery sampleDateParse 1556704802000%Z
          2000%Z sampleDatasource queryA sampleOptions) = JNum 1556704801235000064.
Proof.
  apply (proj2 (proj2 (proj2
           (getTime_nearest_double_both_bounds sampleReplace sampleParseQuery
              sampleDateParse 1556704802000%Z 2000%Z sampleDatasource)))
           queryA sampleOptions 1556704801235%Z);
    reflexivity.
Defined.



Lemma mergeStreams_cap_sample :
  Z.of_nat
    (List.length
       (rows (mergeStreams specMergeStreamsToLogs sampleSeries sampleDatasource
                [sampleStream] 1000%Z)))
  = 2%Z.
Proof.
  apply (mergeStreams_cap sampleReplace sampleParseQuery sampleSeries sampleDateParse
           1556704802000%Z 2000%Z respondWithStreams [] sampleDatasource [sampleStream] 1000%Z).
  - discriminate.
  - reflexivity.
Defined.


Lemma testDatasource_failure_sample :
  settled (testDatasource rejectAll sampleDatasource)
  = Resolved {| status := "error"; message := "Loki: Internal Error. 500" |}.
Proof.
  apply (testDatasource_failure_message rejectAll sampleDatasource internalError).
  reflexivity.
Defined.

(** An assignment in place, by contrast, is seen through the reference
    that was handed in. *)
Example heap_write_sample :
  (q <- heap_read 1 ;;
   _ <- heap_write 1 {| refId := refId q; expr := "x"; format := format q;
                        hide := hide q |} ;;
   heap_ret 1%nat) [queryA; queryB]
  = Some (1, [queryA; {| refId := "B"; expr := "x"; format := None; hide := Some false |}]).
Proof. reflexivity. Qed.

Lemma modifyQuery_fresh_sample :
  exists h' l' q',
    modifyQuery sampleParseQuery sampleFormatQuery sampleAddLabel 1 noopAction
      [queryA; queryB] = Some (l', h')
    /\ nth_error [queryA; queryB] l' = None
    /\ List.length h' = 3
    /\ (forall l0 q0, nth_error [queryA; queryB] l0 = Some q0 -> nth_error h' l0 = Some q0)
    /\ nth_error h' 1 = Some queryB
    /\ nth_error h' l' = Some q'
    /\ refId q' = refId queryB /\ format q' = format queryB /\ hide q' = hide queryB
    /\ (forall q'', exists h'',
           heap_write l' q'' h' = Some (tt, h'') /\ nth_error h'' 1 = Some queryB).
Proof.
  apply (modifyQuery_fresh_object sampleParseQuery sampleFormatQuery sampleAddLabel
           [queryA; queryB] 1 queryB noopAction).
  reflexivity.
Defined.

(** ** The further statements on the sample inputs *)

Example replace_first_sample :
  replace_first "v1" "prom" "/api/v1/label/v1/values" = "/api/prom/label/v1/values"
  /\ replace_first "v1" "prom" "/api/prom/label" = "/api/prom/label".
Proof. split; reflexivity. Qed.

Example metadataRequest_sample :
  metadataRequest respondWithLabels sampleDatasource "/api/v1/label/job/values"
  = ([DatasourceRequest
        [("url", JStr "http://loki:3100/api/prom/label/job/values?silent=true")]],
     Resolved {| mr_data := {| md_data := ["job"; "env"] |} |}).
Proof. reflexivity. Qed.

Lemma serializeParams_shape_sample :
  count_char "?" (serializeParams [("q?", JStr "a b&c=d"); ("n", JNum 7)]) = 0.
Proof.
  apply (serializeParams_shape [("q?", JStr "a b&c=d"); ("n", JNum 7)]).
  left. reflexivity.
Defined.

Lemma serializeParams_injective_sample :
  map (fun kv => (fst kv, js_toString (snd kv))) [("limit", JNum 7)]
  = map (fun kv => (fst kv, js_toString (snd kv))) [("limit", JStr "7")].
Proof.
  apply (serializeParams_injective [("limit", JNum 7)] [("limit", JStr "7")]).
  reflexivity.
Defined.

Lemma requests_distinguish_sample :
  requestFor sampleReplace sampleParseQuery sampleDateParse 1556704802000%Z 2000%Z
    sampleDatasource sampleOptions queryA
  = requestFor sampleReplace sampleParseQuery sampleDateParse 1556704802007%Z 2000%Z
      sampleDatasource sampleOptions queryAgain.
Proof.
  apply (proj2 (requests_distinguish_targets sampleReplace sampleParseQuery 2000%Z
                  sampleDatasource sampleDateParse 1556704802000%Z sampleDateParse
                  1556704802007%Z sampleOptions queryA queryAgain)).
  - reflexivity.
  - exists 1556704801235%Z. reflexivity.
  - exists 1556704801235%Z. reflexivity.
  - reflexivity.
  - reflexivity.
Defined.

Lemma query_bounds_sample :
  exists s e,
    obj_get "start"
      (prepareQueryTarget sampleReplace sampleParseQuery sampleDateParse 1556704802000%Z 2000%Z
         sampleDatasource queryA sampleOptions) = JNum s
    /\ obj_get "end"
         (prepareQueryTarget sampleReplace sampleParseQuery sampleDateParse 1556704802000%Z 2000%Z
            sampleDatasource queryA sampleOptions) = JNum e
    /\ (s <= e)%Z.
Proof.
  apply (query_bounds_ordered sampleReplace sampleParseQuery sampleDateParse 1556704802000%Z 2000%Z
           sampleDatasource queryA sampleOptions 1556704801235%Z 1556704801235%Z);
    reflexivity.
Defined.

Lemma live_window_sample :
  prepareQueryTarget sampleReplace sampleParseQuery sampleDateParse 1556704802000%Z
    2000%Z sampleDatasource queryA
    (withRange streamingOptions {| from := DateString "now-1h"; to := DateString "now" |})
  = prepareQueryTarget sampleReplace sampleParseQuery sampleDateParse 1556704802000%Z
      2000%Z sampleDatasource queryA streamingOptions
  /\ exists s e,
       obj_get "start"
         (prepareQueryTarget sampleReplace sampleParseQuery sampleDateParse
            1556704802000%Z 2000%Z sampleDatasource queryA streamingOptions) = JNum s
       /\ obj_get "end"
            (prepareQueryTarget sampleReplace sampleParseQuery sampleDateParse
               1556704802000%Z 2000%Z sampleDatasource queryA streamingOptions) = JNum e
       /\ (s <= e)%Z
       /\ (shortest_decimal e - shortest_decimal s = 2000 * 1000000)%Z.
Proof.
  destruct (live_window sampleReplace sampleParseQuery sampleDateParse 1556704802000%Z
              2000%Z sampleDatasource queryA streamingOptions eq_refl)
    as [Hr (s & e & Hs & He & Hle & Hwin)].
  split; [apply Hr|]. exists s, e.
  split; [exact Hs|]. split; [exact He|].
  split; [apply Hle; lia | apply Hwin; reflexivity].
Defined.

Lemma request_object_sample :
  exists req,
    _request respondWithLabels sampleDatasource "/api/prom/label" None
      (Some sampleRequestOptions)
    = ([DatasourceRequest req], respondWithLabels req)
    /\ obj_get "url" req = JStr "http://loki:3100/api/prom/label?"
    /\ forall k, k <> "url" -> obj_get k req = obj_get k sampleRequestOptions.
Proof.
  apply (request_object respondWithLabels sampleDatasource "/api/prom/label" None
           (Some sampleRequestOptions)).
  repeat constructor; simpl; intuition discriminate.
Defined.

Lemma metadataRequest_url_sample :
  calls (metadataRequest respondWithLabels sampleDatasource
           ("/api/" ++ "v1" ++ "/label/v1/values"))
  = [DatasourceRequest
       (metadataRequestFor sampleDatasource ("/api/" ++ "prom" ++ "/label/v1/values"))].
Proof.
  apply (metadataRequest_url respondWithLabels sampleDatasource).
  reflexivity.
Defined.

Lemma metadataRequest_outcome_sample :
  settled (metadataRequest respondWithLabels sampleDatasource "/api/v1/label")
  = Resolved {| mr_data := {| md_data := labelValues labelsResponse |} |}.
Proof.
  apply (metadataRequest_outcome respondWithLabels sampleDatasource "/api/v1/label")
    with (d := {| rd_streams := None; rd_values := Some ["job"; "env"] |});
    reflexivity.
Defined.


Lemma testDatasource_status_sample :
  exists r,
    settled (testDatasource respondWithLabels sampleDatasource) = Resolved r
    /\ (status r = "success" <-> labelValues labelsResponse <> [])
    /\ (status r = "error" <-> labelValues labelsResponse = []).
Proof.
  apply (proj1 (proj2 (testDatasource_status respondWithLabels sampleDatasource))
           labelsResponse).
  reflexivity.
Defined.

Lemma tail_sockets_sample :
  socketFor sampleReplace sampleParseQuery sampleUrlHost resolveLookup sampleDatasource
    streamingOptions queryB
  = SocketOpen "ws://u:p@ss@loki:3100/api/prom/tail?query=&regexp=b".
Proof.
  apply (proj1 (tail_sockets sampleReplace sampleParseQuery sampleUrlHost resolveLookup
                  sampleDatasource streamingOptions queryB) sampleInfo "loki:3100");
    reflexivity.
Defined.

Lemma query_first_failure_sample :
  settled
    (snd (query sampleReplace sampleParseQuery specMergeStreamsToLogs sampleSeries
            sampleDateParse 1556704802000%Z 2000%Z rejectFilterB ([0] ++ 1 :: []) sampleDatasource
            sampleStore sampleOptions))
  = Rejected internalError.
Proof.
  apply (query_rejects_with_first_failure sampleReplace sampleParseQuery
           specMergeStreamsToLogs sampleSeries sampleDateParse 1556704802000%Z 2000%Z rejectFilterB
           sampleDatasource [0] [] 1 sampleStore sampleOptions queryB internalError).
  - reflexivity.
  - reflexivity.
  - intros j t [<- | []] [= <-]. eexists. vm_compute. reflexivity.
Defined.

Lemma configured_limit_sample :
  configuredMaxLines (Some 0%Z) = 1000%Z.
Proof.
  apply (proj1 (proj2 (proj2
           (configured_limit_is_sent sampleReplace sampleParseQuery sampleDateParse
              1556704802000%Z 2000%Z "http://loki:3100" 7%Z (Some 0%Z) queryA sampleOptions)))).
  right. reflexivity.
Defined.

Lemma query_empty_responses_sample :
  query sampleReplace sampleParseQuery specMergeStreamsToLogs sampleSeries
    sampleDateParse 1556704802000%Z 2000%Z respondWithLabels [] sampleDatasource sampleStore rawOptions
  = (sampleStore,
     (map (fun target =>
             DatasourceRequest
               (requestFor sampleReplace sampleParseQuery sampleDateParse 1556704802000%Z 2000%Z
                  sampleDatasource rawOptions target))
        (filter active (targets rawOptions)),
      Resolved {| data := [] |})).
Proof.
  apply (query_tolerates_empty_responses sampleReplace sampleParseQuery
           specMergeStreamsToLogs sampleSeries sampleDateParse 1556704802000%Z 2000%Z respondWithLabels
           [] sampleDatasource sampleStore rawOptions queryB).
  - reflexivity.
  - discriminate.
  - intros target _. eexists. vm_compute. reflexivity.
  - intros target _. reflexivity.
Defined.
